(** * Online Poll System Backend: vote integrity and result aggregation

    A shallow embedding of [polls/models.py], [polls/serializers.py],
    [polls/signals.py] and the views of [polls/views.py].

    Conventions of the embedding.
    - A table of the relational store is the list of its rows, in the order
      in which the engine lists them; primary keys are natural numbers.
    - Time stamps are integers; [now] stands for [timezone.now()] and is an
      argument of every function that reads the clock.
    - A Python exception is a value of [exn]; a function that may raise
      returns a [result].
    - A percentage is kept exactly, as an integer number of hundredths
      (6667 stands for 66.67). Python computes [round(c / t * 100, 2)] in
      binary floating point; the model rounds the exact quotient to the
      nearest hundredth, a tie going to the even neighbour.
    - Users are known by their key only; the table of users, the HTTP
      layer, rate limiting and the admin pages are outside the model. *)

From Stdlib Require Import ZArith Ascii String List Sorted Permutation Lia.
From stdpp Require Import gmap strings list pretty.

Local Open Scope string_scope.
Local Open Scope nat_scope.
Local Open Scope list_scope.

(** ** Exceptions and results *)

Inductive exn : Type :=
| SerializerValidationError (msg : string)
    (* rest_framework.serializers.ValidationError: answered with HTTP 400 *)
| DjangoValidationError (msg : string)
    (* django.core.exceptions.ValidationError, raised by Model.full_clean *)
| DoesNotExist
    (* a related object that is not in the store *)
| TypeError (msg : string).

Inductive result (A : Type) : Type :=
| Ok (a : A)
| Raise (e : exn).
Arguments Ok {A} a.
Arguments Raise {A} e.

#[global] Instance result_ret : MRet result := fun A a => Ok a.
#[global] Instance result_bind : MBind result := fun A B f m =>
  match m with
  | Ok a => f a
  | Raise e => Raise e
  end.

#[global] Instance result_fmap : FMap result := fun A B f m =>
  match m with
  | Ok a => Ok (f a)
  | Raise e => Raise e
  end.

Definition is_ok {A} (r : result A) : bool :=
  match r with Ok _ => true | Raise _ => false end.

(** The queryset method [.exists()]. *)
Definition exists_ {A} (rows : list A) : bool :=
  match rows with [] => false | _ :: _ => true end.

(** ** Data model ([polls/models.py]) *)

Module Poll.
Record t : Type := mk {
  id : nat;
  title : string;
  description : string;
  created_by : nat;
  created_at : Z;
  expires_at : option Z;
  is_active : bool;
  allow_multiple_votes : bool
}.

(** [Poll.is_expired]: a poll without expiry never expires. *)
Definition is_expired (now : Z) (self : t) : bool :=
  match expires_at self with
  | Some e => bool_decide (now > e)%Z
  | None => false
  end.

End Poll.

Module PollOption.
Record t : Type := mk {
  id : nat;
  poll : nat;
  text : string;
  created_at : Z;
  order : nat
}.
End PollOption.

Module Vote.
Record t : Type := mk {
  pk : Datatypes.option nat;       (* None until the row is inserted *)
  user : Datatypes.option nat;     (* None for an anonymous vote *)
  option : nat;
  ip_address : string;
  user_agent : string;
  created_at : Z
}.

Definition with_pk (k : nat) (self : t) : t :=
  mk (Some k) (user self) (option self) (ip_address self)
     (user_agent self) (created_at self).
End Vote.

(** The persistent store. *)
Record DB : Type := mkDB {
  polls : list Poll.t;
  options : list PollOption.t;
  votes : list Vote.t
}.

Definition with_votes (vs : list Vote.t) (db : DB) : DB :=
  mkDB (polls db) (options db) vs.

Definition with_options (os : list PollOption.t) (db : DB) : DB :=
  mkDB (polls db) os (votes db).

Definition with_polls (ps : list Poll.t) (db : DB) : DB :=
  mkDB ps (options db) (votes db).

(** ** Queries *)

(** [Poll.objects.get(pk=...)] and [PollOption.objects.get(pk=...)]. *)
Definition get_poll (db : DB) (pid : nat) : option Poll.t :=
  List.find (fun p => bool_decide (Poll.id p = pid)) (polls db).

Definition get_option (db : DB) (oid : nat) : option PollOption.t :=
  List.find (fun o => bool_decide (PollOption.id o = oid)) (options db).

(** Following a foreign key of an object raises when the row is missing. *)
Definition follow {A} (o : option A) : result A :=
  match o with
  | Some a => Ok a
  | None => Raise DoesNotExist
  end.

(** The poll a vote row belongs to, through the join [option__poll]. *)
Definition vote_poll (db : DB) (v : Vote.t) : option nat :=
  PollOption.poll <$> get_option db (Vote.option v).

(** [Vote.objects.filter(option__poll=poll)] *)
Definition votes_of_poll (db : DB) (pid : nat) : list Vote.t :=
  filter (fun w => vote_poll db w = Some pid) (votes db).

(** [.filter(user=user)] and [.filter(ip_address=ip)] on a vote queryset. *)
Definition filter_user (u : nat) (rows : list Vote.t) : list Vote.t :=
  filter (fun w => Vote.user w = Some u) rows.

Definition filter_ip (ip : string) (rows : list Vote.t) : list Vote.t :=
  filter (fun w => Vote.ip_address w = ip) rows.

(** [.exclude(pk=pk)]: with [pk = None] no stored row is excluded. *)
Definition exclude_pk (k : option nat) (rows : list Vote.t) : list Vote.t :=
  filter (fun w => Vote.pk w ≠ k) rows.

(** ** Vote Recorder ([Vote.clean], [Vote.save]) *)

(** [Vote.clean] *)
Definition Vote_clean (db : DB) (self : Vote.t) : result unit :=
  o ← follow (get_option db (Vote.option self));
  p ← follow (get_poll db (PollOption.poll o));
  if negb (Poll.allow_multiple_votes p) then
    let existing_vote :=
      match Vote.user self with
      | Some u =>
          exists_ (exclude_pk (Vote.pk self)
                     (filter_user u (votes_of_poll db (Poll.id p))))
      | None => false
      end in
    if existing_vote then
      Raise (DjangoValidationError "User has already voted in this poll.")
    else
      let existing_ip_vote :=
        exists_ (exclude_pk (Vote.pk self)
                   (filter_ip (Vote.ip_address self)
                      (votes_of_poll db (Poll.id p)))) in
      if existing_ip_vote then
        Raise (DjangoValidationError
                 "A vote from this IP address already exists for this poll.")
      else Ok tt
  else Ok tt.

(** The key the store gives to a new row: above every key in use. *)
Definition fresh_pk (rows : list Vote.t) : nat :=
  S (max_list (omap Vote.pk rows)).

(** [Model.save]: a row with a key that is in the table is updated in
    place, any other row is inserted. *)
Definition Model_save (rows : list Vote.t) (self : Vote.t) : Vote.t * list Vote.t :=
  match Vote.pk self with
  | Some k =>
      if exists_ (filter (fun w => Vote.pk w = Some k) rows)
      then (self, (fun w => if bool_decide (Vote.pk w = Some k) then self else w) <$> rows)
      else (self, rows ++ [self])
  | None =>
      let row := Vote.with_pk (fresh_pk rows) self in
      (row, rows ++ [row])
  end.

Section Recorder.
(** The format check of [GenericIPAddressField], which belongs to the
    framework, is a parameter. *)
Variable valid_ip : string -> bool.

(** [Model.clean_fields] for a vote: the address must be well formed. *)
Definition Vote_clean_fields (self : Vote.t) : result unit :=
  if valid_ip (Vote.ip_address self) then Ok tt
  else Raise (DjangoValidationError "Enter a valid IPv4 or IPv6 address.").

(** [Model.full_clean]: field checks, then [clean]. (Django gathers the
    errors of both before it raises; the model raises at the first.) *)
Definition Vote_full_clean (db : DB) (self : Vote.t) : result unit :=
  _ ← Vote_clean_fields self;
  Vote_clean db self.

(** [Vote.save]: [full_clean], then the write. *)
Definition Vote_save (db : DB) (self : Vote.t) : result (Vote.t * DB) :=
  _ ← Vote_full_clean db self;
  let '(row, rows) := Model_save (votes db) self in
  Ok (row, with_votes rows db).
End Recorder.

(** ** Vote Validator ([VoteSerializer]) *)

(** What the serializer reads of the HTTP request. *)
Record Request : Type := mkRequest {
  request_user : option nat;   (* the user, when authenticated *)
  HTTP_X_FORWARDED_FOR : option string;
  REMOTE_ADDR : string;
  HTTP_USER_AGENT : option string
}.

(** [s.split(',')[0]] *)
Fixpoint before_comma (s : string) : string :=
  match s with
  | EmptyString => EmptyString
  | String c s' =>
      if bool_decide (c = ","%char) then EmptyString
      else String c (before_comma s')
  end.

(** [VoteSerializer.get_client_ip] *)
Definition get_client_ip (request : Request) : string :=
  match HTTP_X_FORWARDED_FOR request with
  | Some x_forwarded_for =>
      if bool_decide (x_forwarded_for = "") then REMOTE_ADDR request
      else before_comma x_forwarded_for
  | None => REMOTE_ADDR request
  end.

(** The error code of the primary-key field for a key that names no row. *)
Definition does_not_exist : string := "does_not_exist".

(** The [option] field of the serializer, a primary-key related field over
    [PollOption.objects.all()]: the submitted key is resolved to its row. *)
Definition option_to_internal_value (db : DB) (data : nat) : result PollOption.t :=
  match get_option db data with
  | Some o => Ok o
  | None => Raise (SerializerValidationError does_not_exist)
  end.

(** [VoteSerializer.validate_option] *)
Definition validate_option (db : DB) (now : Z) (value : PollOption.t)
  : result PollOption.t :=
  poll ← follow (get_poll db (PollOption.poll value));
  if negb (Poll.is_active poll) then
    Raise (SerializerValidationError "This poll is not active.")
  else if Poll.is_expired now poll then
    Raise (SerializerValidationError "This poll has expired.")
  else Ok value.

(** [VoteSerializer.validate]; [context] is [self.context.get('request')]. *)
Definition validate (db : DB) (context : option Request)
    (data : PollOption.t) : result PollOption.t :=
  match context with
  | None => Raise (SerializerValidationError "Request context is required.")
  | Some request =>
      poll ← follow (get_poll db (PollOption.poll data));
      let user := request_user request in
      let ip_address := get_client_ip request in
      if negb (Poll.allow_multiple_votes poll) then
        let existing_votes := votes_of_poll db (Poll.id poll) in
        if match user with
           | Some u => exists_ (filter_user u existing_votes)
           | None => false
           end
        then Raise (SerializerValidationError "You have already voted in this poll.")
        else if exists_ (filter_ip ip_address existing_votes)
        then Raise (SerializerValidationError
                      "A vote from your IP address already exists for this poll.")
        else Ok data
      else Ok data
  end.

(** [serializer.is_valid(raise_exception=True)]: the field is resolved and
    validated, then the object-level [validate] runs. *)
Definition VoteSerializer_is_valid (db : DB) (now : Z)
    (context : option Request) (data : nat) : result PollOption.t :=
  value ← option_to_internal_value db data;
  value ← validate_option db now value;
  validate db context value.

(** The unsaved [Vote] that [VoteSerializer.create] builds. *)
Definition new_vote (now : Z) (request : Request) (o : PollOption.t) : Vote.t :=
  Vote.mk None (request_user request) (PollOption.id o) (get_client_ip request)
          (default "" (HTTP_USER_AGENT request)) now.

Section CastVote.
Variable valid_ip : string -> bool.

(** [VoteSerializer.create]: the vote is built from the validated data
    and the request, and saved. *)
Definition VoteSerializer_create (db : DB) (now : Z) (request : Request)
    (validated_data : PollOption.t) : result (Vote.t * DB) :=
  Vote_save valid_ip db (new_vote now request validated_data).

(** [VoteCreateView.post]: validate, then create. *)
Definition castVote (db : DB) (now : Z) (request : Request) (data : nat)
  : result (Vote.t * DB) :=
  validated_data ← VoteSerializer_is_valid db now (Some request) data;
  VoteSerializer_create db now request validated_data.


(** *** Requests served concurrently

    A request reads the store when the serializer validates it, reads it
    again in [full_clean], and writes it last. The code opens no
    transaction and takes no lock, so other requests may move between
    these three steps. A request is at one of four places. *)
Inductive place : Type :=
| AtIsValid (data : nat)        (* before [serializer.is_valid] *)
| AtFullClean (v : Vote.t)      (* in [Vote.save], before [full_clean] *)
| AtWrite (v : Vote.t)          (* [full_clean] passed, before the write *)
| Finished (outcome : result Vote.t).

Record thread : Type := mkThread {
  th_request : Request;
  th_place : place
}.

Definition thread_step (db : DB) (now : Z) (th : thread) : thread * DB :=
  let request := th_request th in
  match th_place th with
  | AtIsValid data =>
      match VoteSerializer_is_valid db now (Some request) data with
      | Ok o => (mkThread request (AtFullClean (new_vote now request o)), db)
      | Raise e => (mkThread request (Finished (Raise e)), db)
      end
  | AtFullClean v =>
      match Vote_full_clean valid_ip db v with
      | Ok _ => (mkThread request (AtWrite v), db)
      | Raise e => (mkThread request (Finished (Raise e)), db)
      end
  | AtWrite v =>
      let '(row, rows) := Model_save (votes db) v in
      (mkThread request (Finished (Ok row)), with_votes rows db)
  | Finished _ => (th, db)
  end.

(** A schedule names, step by step, the thread that moves. *)
Fixpoint run (db : DB) (now : Z) (ths : list thread) (schedule : list nat)
  : list thread * DB :=
  match schedule with
  | [] => (ths, db)
  | i :: schedule' =>
      match ths !! i with
      | Some th =>
          let '(th', db') := thread_step db now th in
          run db' now (<[i := th']> ths) schedule'
      | None => run db now ths schedule'
      end
  end.
End CastVote.

Definition start (job : Request * nat) : thread :=
  mkThread (fst job) (AtIsValid (snd job)).

Definition accepted (th : thread) : bool :=
  match th_place th with
  | Finished (Ok _) => true
  | _ => false
  end.


(** ** Result Aggregator ([Poll.get_results]) *)

(** A row of [.values('id', 'text', 'vote_count')]. *)
Module ValuesRow.
Record t : Type := mk {
  id : nat;
  text : string;
  vote_count : nat
}.
End ValuesRow.

(** The same row once the loop has added the key ['percentage']. *)
Module ResultRow.
Record t : Type := mk {
  id : nat;
  text : string;
  vote_count : nat;
  percentage : Z     (* in hundredths *)
}.
End ResultRow.

Module Results.
Record t : Type := mk {
  poll_id : nat;
  poll_title : string;
  total_votes : nat;
  options : list ResultRow.t;
  is_expired : bool;
  created_at : Z;
  expires_at : option Z
}.
End Results.

(** [self.options]: the option rows of a poll, as the table lists them. *)
Definition poll_options (db : DB) (self : Poll.t) : list PollOption.t :=
  filter (fun o => PollOption.poll o = Poll.id self) (options db).

(** [Count('votes')] for one option. *)
Definition count_votes (db : DB) (oid : nat) : nat :=
  length (filter (fun v => Vote.option v = oid) (votes db)).

(** [.annotate(vote_count=Count('votes')).values('id', 'text', 'vote_count')] *)
Definition annotate_values (db : DB) (o : PollOption.t) : ValuesRow.t :=
  ValuesRow.mk (PollOption.id o) (PollOption.text o) (count_votes db (PollOption.id o)).

(** [.order_by('-vote_count')]. This call replaces the default ordering of
    the model, so the count is the only sort key; rows with the same count
    stay in the order in which the engine lists them. *)
Fixpoint insert_by_vote_count (r : ValuesRow.t) (rows : list ValuesRow.t)
  : list ValuesRow.t :=
  match rows with
  | [] => [r]
  | x :: rows' =>
      if bool_decide (ValuesRow.vote_count x ≤ ValuesRow.vote_count r)
      then r :: x :: rows'
      else x :: insert_by_vote_count r rows'
  end.

Definition order_by_vote_count_desc (rows : list ValuesRow.t) : list ValuesRow.t :=
  foldr insert_by_vote_count [] rows.

(** The integer nearest to [n / d], a tie going to the even neighbour, as
    Python's [round] does; [d] is positive. *)
Definition round_half_even (n d : Z) : Z :=
  let q := (n / d)%Z in
  let r := (n mod d)%Z in
  if bool_decide (2 * r < d)%Z then q
  else if bool_decide (d < 2 * r)%Z then (q + 1)%Z
  else if Z.even q then q else (q + 1)%Z.

(** [round((vote_count / total_votes) * 100, 2)], in hundredths. *)
Definition percentage_of (vote_count total_votes : nat) : Z :=
  if bool_decide (0 < total_votes) then
    round_half_even (Z.of_nat vote_count * 10000) (Z.of_nat total_votes)
  else 0%Z.

Definition add_percentage (total_votes : nat) (r : ValuesRow.t) : ResultRow.t :=
  ResultRow.mk (ValuesRow.id r) (ValuesRow.text r) (ValuesRow.vote_count r)
               (percentage_of (ValuesRow.vote_count r) total_votes).

(** [Poll.get_results] *)
Definition get_results (db : DB) (now : Z) (self : Poll.t) : Results.t :=
  let results :=
    order_by_vote_count_desc (annotate_values db <$> poll_options db self) in
  let total_votes := sum_list (ValuesRow.vote_count <$> results) in
  Results.mk (Poll.id self) (Poll.title self) total_votes
             (add_percentage total_votes <$> results)
             (Poll.is_expired now self) (Poll.created_at self)
             (Poll.expires_at self).

(** [PollResultsView.get_object]: [None] when no poll has the key. *)
Definition getResults (db : DB) (now : Z) (poll_id : nat)
  : option Results.t :=
  get_results db now <$> get_poll db poll_id.

(** [Poll.total_votes] *)
Definition Poll_total_votes (db : DB) (self : Poll.t) : nat :=
  length (votes_of_poll db (Poll.id self)).

(** ** Poll creation ([PollOptionSerializer], [PollCreateSerializer]) *)

(** Text is ASCII. [isspace] is Python's [str.isspace] there, and [lower]
    maps the letters A to Z to a to z. *)
Definition isspace (c : ascii) : bool :=
  let n := nat_of_ascii c in
  bool_decide (9 ≤ n ≤ 13) || bool_decide (28 ≤ n ≤ 32).

Fixpoint lstrip (s : list ascii) : list ascii :=
  match s with
  | [] => []
  | c :: s' => if isspace c then lstrip s' else s
  end.

Definition rstrip (s : list ascii) : list ascii := rev (lstrip (rev s)).

(** [s.strip()] *)
Definition strip (s : string) : string :=
  string_of_list_ascii (rstrip (lstrip (list_ascii_of_string s))).

Definition lower_char (c : ascii) : ascii :=
  let n := nat_of_ascii c in
  if bool_decide (65 ≤ n ≤ 90) then ascii_of_nat (n + 32) else c.

(** [s.lower()] *)
Fixpoint lower (s : string) : string :=
  match s with
  | EmptyString => EmptyString
  | String c s' => String (lower_char c) (lower s')
  end.

(** The validated dictionary of one option. The serializer field [order] is
    writable and not required: the key is there when the client sent it. *)
Record OptionData : Type := mkOptionData {
  od_text : string;
  od_order : option nat
}.

(** The data of a poll creation request. *)
Record PollData : Type := mkPollData {
  pd_title : string;
  pd_description : string;
  pd_expires_at : option Z;
  pd_is_active : bool;
  pd_allow_multiple_votes : bool;
  pd_options : list OptionData
}.

(** [PollOptionSerializer.validate_text] *)
Definition validate_text (value : string) : result string :=
  if bool_decide (String.length (strip value) < 2) then
    Raise (SerializerValidationError "Option text must be at least 2 characters long.")
  else Ok (strip value).

(** The child serializer run on one option. *)
Definition PollOptionSerializer_run (o : OptionData) : result OptionData :=
  t ← validate_text (od_text o);
  Ok (mkOptionData t (od_order o)).

(** [PollCreateSerializer.validate_title] *)
Definition validate_title (value : string) : result string :=
  if bool_decide (String.length (strip value) < 5) then
    Raise (SerializerValidationError "Poll title must be at least 5 characters long.")
  else Ok (strip value).

(** [PollCreateSerializer.validate_expires_at] *)
Definition validate_expires_at (now : Z) (value : option Z)
  : result (option Z) :=
  match value with
  | Some e =>
      if bool_decide (e <= now)%Z then
        Raise (SerializerValidationError "Expiration date must be in the future.")
      else Ok value
  | None => Ok value
  end.

(** [len(set(option_texts))] *)
Definition distinct (texts : list string) : nat :=
  length (remove_dups texts).

(** [PollCreateSerializer.validate_options] *)
Definition validate_options (value : list OptionData) : result (list OptionData) :=
  if bool_decide (length value < 2) then
    Raise (SerializerValidationError "Poll must have at least 2 options.")
  else if bool_decide (10 < length value) then
    Raise (SerializerValidationError "Poll cannot have more than 10 options.")
  else
    let option_texts := (fun option => lower (strip (od_text option))) <$> value in
    if bool_decide (length option_texts ≠ distinct option_texts) then
      Raise (SerializerValidationError "Poll options must be unique.")
    else Ok value.

(** The children of a list field, one after the other. *)
Fixpoint run_children (os : list OptionData) : result (list OptionData) :=
  match os with
  | [] => Ok []
  | o :: os' =>
      o' ← PollOptionSerializer_run o;
      os'' ← run_children os';
      Ok (o' :: os'')
  end.

(** [serializer.is_valid(raise_exception=True)] of [PollCreateSerializer]. *)
Definition PollCreateSerializer_is_valid (now : Z) (data : PollData) : result PollData :=
  title ← validate_title (pd_title data);
  expires_at ← validate_expires_at now (pd_expires_at data);
  children ← run_children (pd_options data);
  options ← validate_options children;
  Ok (mkPollData title (pd_description data) expires_at (pd_is_active data)
                 (pd_allow_multiple_votes data) options).

(** A key above every key of the list. *)
Definition fresh_id (ids : list nat) : nat := S (max_list ids).

(** [PollOption.objects.create(poll=poll, order=i + 1, **option_data)]: the
    call names the keyword [order] itself, so a dictionary that also holds
    the key [order] makes the call raise [TypeError]. *)
Definition create_option (db : DB) (now : Z) (poll : Poll.t) (i : nat)
    (option_data : OptionData) : result DB :=
  match od_order option_data with
  | Some _ =>
      Raise (TypeError "got multiple values for keyword argument 'order'")
  | None =>
      let row := PollOption.mk (fresh_id (PollOption.id <$> options db))
                   (Poll.id poll) (od_text option_data) now (i + 1) in
      Ok (with_options (options db ++ [row]) db)
  end.

(** The loop [for i, option_data in enumerate(options_data)]. *)
Fixpoint create_options (db : DB) (now : Z) (poll : Poll.t) (i : nat)
    (options_data : list OptionData) : result DB :=
  match options_data with
  | [] => Ok db
  | option_data :: rest =>
      db' ← create_option db now poll i option_data;
      create_options db' now poll (S i) rest
  end.

(** [PollCreateSerializer.create]; [owner] is the [created_by] that
    [perform_create] passes to [serializer.save]. *)
Definition PollCreateSerializer_create (db : DB) (now : Z) (owner : nat)
    (validated_data : PollData) : result (Poll.t * DB) :=
  let options_data := pd_options validated_data in
  let poll := Poll.mk (fresh_id (Poll.id <$> polls db))
                (pd_title validated_data) (pd_description validated_data)
                owner now (pd_expires_at validated_data)
                (pd_is_active validated_data)
                (pd_allow_multiple_votes validated_data) in
  db' ← create_options (with_polls (polls db ++ [poll]) db) now poll 0 options_data;
  Ok (poll, db').

(** [PollListCreateView.post] *)
Definition createPoll (db : DB) (now : Z) (owner : nat) (data : PollData)
  : result (Poll.t * DB) :=
  validated_data ← PollCreateSerializer_is_valid now data;
  PollCreateSerializer_create db now owner validated_data.

(** The errors of the taxonomy are the validation errors of the serializers;
    anything else that escapes a view is an unhandled exception. *)
Definition typed_rejection (e : exn) : bool :=
  match e with
  | SerializerValidationError _ => true
  | _ => false
  end.

(** ** Cache Invalidator ([polls/signals.py]) *)

Section Cache.
Context {V : Type}.

(** [cache.delete_many(keys)] *)
Definition delete_many (keys : list string) (cache : gmap string V)
  : gmap string V :=
  foldr delete cache keys.

(** [f'poll_results_{poll_id}'] *)
Definition poll_results_key (poll_id : nat) : string :=
  "poll_results_" +:+ pretty poll_id.

Definition vote_cache_keys (poll_id : nat) : list string :=
  [poll_results_key poll_id; "poll_stats"; "top_polls"].

Definition poll_list_cache_keys : list string :=
  ["poll_list"; "active_polls"; "poll_stats"].

Definition poll_cleanup_cache_keys (poll_id : nat) : list string :=
  [poll_results_key poll_id; "poll_list"; "active_polls"; "poll_stats";
   "top_polls"].

(** [invalidate_poll_cache], the receiver of [post_save] sent by [Vote]. *)
Definition invalidate_poll_cache (db : DB) (instance : Vote.t) (created : bool)
    (cache : gmap string V) : result (gmap string V) :=
  if created then
    o ← follow (get_option db (Vote.option instance));
    p ← follow (get_poll db (PollOption.poll o));
    let poll_id := Poll.id p in
    Ok (delete_many (vote_cache_keys poll_id) cache)
  else Ok cache.

(** [invalidate_poll_list_cache], the receiver of [post_save] sent by
    [Poll]. *)
Definition invalidate_poll_list_cache (instance : Poll.t) (created : bool)
    (cache : gmap string V) : gmap string V :=
  delete_many poll_list_cache_keys cache.

(** [cleanup_poll_cache], the receiver of [pre_delete] sent by [Poll]. *)
Definition cleanup_poll_cache (instance : Poll.t) (cache : gmap string V)
  : gmap string V :=
  let poll_id := Poll.id instance in
  delete_many (poll_cleanup_cache_keys poll_id) cache.

(** The model instance a signal is sent for. *)
Inductive instance : Type :=
| APoll (p : Poll.t)
| APollOption (o : PollOption.t)
| AVote (v : Vote.t).

Inductive signal : Type :=
| pre_save (i : instance)
| post_save (i : instance) (created : bool)
| pre_delete (i : instance)
| post_delete (i : instance).

(** Dispatch: each receiver is registered for one signal and one sender. *)
Definition send (db : DB) (s : signal) (cache : gmap string V)
  : result (gmap string V) :=
  match s with
  | post_save (AVote v) created => invalidate_poll_cache db v created cache
  | post_save (APoll p) created => Ok (invalidate_poll_list_cache p created cache)
  | pre_delete (APoll p) => Ok (cleanup_poll_cache p cache)
  | _ => Ok cache
  end.
End Cache.

(** ** Vocabulary of the properties *)

(** A poll of the store that disallows multiple votes. *)
Definition single_vote_poll (db : DB) (pid : nat) : Prop :=
  ∃ p, get_poll db pid = Some p ∧ Poll.allow_multiple_votes p = false.

(** Votes saved one after the other; a vote that [Vote.save] refuses leaves
    the store as it was. *)
Fixpoint save_each (valid_ip : string -> bool) (db : DB) (vs : list Vote.t) : DB :=
  match vs with
  | [] => db
  | v :: vs' =>
      match Vote_save valid_ip db v with
      | Ok (_, db') => save_each valid_ip db' vs'
      | Raise _ => save_each valid_ip db vs'
      end
  end.

(** Every stored vote has a key and no two rows share one. *)
Definition keyed (rows : list Vote.t) : Prop :=
  Forall (fun w => is_Some (Vote.pk w)) rows ∧ NoDup (Vote.pk <$> rows).

(** No two different rows of a single-vote poll share an identity or an
    address. *)
Definition conflict_free (db : DB) : Prop :=
  ∀ w1 w2 pid,
    w1 ∈ votes db → w2 ∈ votes db → Vote.pk w1 ≠ Vote.pk w2 →
    single_vote_poll db pid →
    vote_poll db w1 = Some pid → vote_poll db w2 = Some pid →
    (∀ u, Vote.user w1 = Some u → Vote.user w2 ≠ Some u) ∧
    Vote.ip_address w1 ≠ Vote.ip_address w2.

(** The invariant of the data model for one poll. *)
Definition at_most_one_vote_per_identity (db : DB) (pid : nat) : Prop :=
  ∀ u, length (filter_user u (votes_of_poll db pid)) ≤ 1.

Definition at_most_one_vote_per_address (db : DB) (pid : nat) : Prop :=
  ∀ ip, length (filter_ip ip (votes_of_poll db pid)) ≤ 1.





Definition count_accepted (ths : list thread) : nat :=
  length (List.filter accepted ths).


(** *** The Vote Validator as the specification words it *)

Inductive reason : Type :=
| PollInactive
| PollExpired
| OptionNotFound
| DuplicateIdentityVote
| DuplicateAddressVote.

Inductive verdict : Type :=
| Accept
| Reject (r : reason).

(** Not expired: no expiry is set, or the current time is at most the
    expiry. *)
Definition not_expired (now : Z) (pollState : Poll.t) : bool :=
  match Poll.expires_at pollState with
  | None => true
  | Some expiry => bool_decide (now <= expiry)%Z
  end.

Definition option_belongs (db : DB) (optionId : nat) (pollState : Poll.t) : bool :=
  match get_option db optionId with
  | Some o => bool_decide (PollOption.poll o = Poll.id pollState)
  | None => false
  end.

Definition prior_vote_by_identity (db : DB) (pollState : Poll.t) (u : nat) : bool :=
  existsb (fun w => bool_decide (vote_poll db w = Some (Poll.id pollState)
                                 ∧ Vote.user w = Some u)) (votes db).

Definition prior_vote_by_address (db : DB) (pollState : Poll.t) (a : string) : bool :=
  existsb (fun w => bool_decide (vote_poll db w = Some (Poll.id pollState)
                                 ∧ Vote.ip_address w = a)) (votes db).

(** The checks in the order of the specification; the first that fails
    gives the reason. *)
Definition validate_in_order (db : DB) (now : Z) (pollState : Poll.t)
    (optionId : nat) (identity : option nat) (sourceAddress : string)
  : verdict :=
  if negb (Poll.is_active pollState) then Reject PollInactive
  else if negb (not_expired now pollState) then Reject PollExpired
  else if negb (option_belongs db optionId pollState) then Reject OptionNotFound
  else if negb (Poll.allow_multiple_votes pollState) then
    if match identity with
       | Some u => prior_vote_by_identity db pollState u
       | None => false
       end
    then Reject DuplicateIdentityVote
    else if prior_vote_by_address db pollState sourceAddress
    then Reject DuplicateAddressVote
    else Accept
  else Accept.

(** The message by which the serializer reports each reason. *)
Definition message (r : reason) : string :=
  match r with
  | PollInactive => "This poll is not active."
  | PollExpired => "This poll has expired."
  | OptionNotFound => does_not_exist
  | DuplicateIdentityVote => "You have already voted in this poll."
  | DuplicateAddressVote =>
      "A vote from your IP address already exists for this poll."
  end.

Definition answer (o : PollOption.t) (v : verdict) : result PollOption.t :=
  match v with
  | Accept => Ok o
  | Reject r => Raise (SerializerValidationError (message r))
  end.

(** *** The result set *)

(** The order of two rows under [-vote_count]. *)
Definition count_ge (a b : ValuesRow.t) : Prop :=
  ValuesRow.vote_count b ≤ ValuesRow.vote_count a.

(** The rows come by count, largest first. *)
Definition by_descending_count (rows : list ResultRow.t) : Prop :=
  ∀ i j a b, i < j → rows !! i = Some a → rows !! j = Some b →
             ResultRow.vote_count b ≤ ResultRow.vote_count a.

(** The display order of the option behind a row of the result. *)
Definition display_order (db : DB) (r : ResultRow.t) : nat :=
  default 0 (PollOption.order <$> get_option db (ResultRow.id r)).

(** Rows with the same count come by ascending display order. *)
Definition ties_by_display_order (db : DB) (rows : list ResultRow.t) : Prop :=
  ∀ i j a b, i < j → rows !! i = Some a → rows !! j = Some b →
             ResultRow.vote_count a = ResultRow.vote_count b →
             display_order db a ≤ display_order db b.

(** The store with the display order of every option replaced. *)
Definition set_order (f : PollOption.t -> nat) (o : PollOption.t) : PollOption.t :=
  PollOption.mk (PollOption.id o) (PollOption.poll o) (PollOption.text o)
                (PollOption.created_at o) (f o).

Definition reordered (f : PollOption.t -> nat) (db : DB) : DB :=
  with_options (set_order f <$> options db) db.

(** The sum of the percentages of a result, in hundredths. *)
Definition sum_percentages (rows : list ResultRow.t) : Z :=
  foldr (fun r acc => (ResultRow.percentage r + acc)%Z) 0%Z rows.

(** The percentages are 0 without votes and otherwise add up to 100 within
    [tolerance] hundredths. *)
Definition percentages_add_up (tolerance : Z) (r : Results.t) : Prop :=
  (0 < Results.total_votes r →
   (Z.abs (sum_percentages (Results.options r) - 10000) <= tolerance)%Z) ∧
  (Results.total_votes r = 0 →
   ∀ row, row ∈ Results.options r → ResultRow.percentage row = 0%Z).

(** *** Poll creation *)

(** The text of an option, trimmed and in lower case. *)
Definition normalized (o : OptionData) : string := lower (strip (od_text o)).



(** A list of characters that does not start with white space. *)
Definition starts_clean (s : list ascii) : Prop :=
  match s with
  | [] => True
  | c :: _ => isspace c = false
  end.

(** *** The model layer and the cache *)

(** No stored vote of poll [pid], other than the row of [v] itself, has the
    identity or the address of [v]. *)
Definition no_duplicate (db : DB) (pid : nat) (v : Vote.t) : Prop :=
  ∀ w, w ∈ votes db → vote_poll db w = Some pid → Vote.pk w ≠ Vote.pk v →
       (∀ u, Vote.user v = Some u → Vote.user w ≠ Some u) ∧
       Vote.ip_address w ≠ Vote.ip_address v.



(** [cache'] is [cache] without the entries of [keys], and nothing else
    has changed. *)
Definition deletes_exactly {V} (keys : list string) (cache cache' : gmap string V)
  : Prop :=
  ∀ k, cache' !! k = if bool_decide (k ∈ keys) then None else cache !! k.

(** The three signals that have a receiver. *)
Definition is_trigger (s : signal) : bool :=
  match s with
  | post_save (AVote _) true => true
  | post_save (APoll _) _ => true
  | pre_delete (APoll _) => true
  | _ => false
  end.

(** ** Data of the examples *)

Module Example.
(** An address check for the examples: four decimal groups of at most
    three digits and at most 255, separated by dots. *)
Definition digit (c : ascii) : option nat :=
  let n := nat_of_ascii c in
  if bool_decide (48 ≤ n ≤ 57) then Some (n - 48) else None.

Fixpoint dotted (s : string) (digits value groups : nat) : bool :=
  match s with
  | EmptyString =>
      bool_decide (0 < digits ∧ value ≤ 255 ∧ groups = 3)
  | String c s' =>
      if bool_decide (c = "."%char) then
        bool_decide (0 < digits ∧ value ≤ 255) && dotted s' 0 0 (S groups)
      else
        match digit c with
        | Some d => bool_decide (digits < 3) && dotted s' (S digits) (10 * value + d) groups
        | None => false
        end
  end.

Definition ipv4 (s : string) : bool := dotted s 0 0 0.

(** A single-vote poll with two options, A before B. *)
Definition poll : Poll.t :=
  Poll.mk 1 "Test Poll" "Test Description" 1 0 None true false.
Definition option_A : PollOption.t := PollOption.mk 1 1 "A" 0 1.
Definition option_B : PollOption.t := PollOption.mk 2 1 "B" 0 2.

Definition empty_store : DB := mkDB [poll] [option_A; option_B] [].

Definition anonymous (ip : string) : Request := mkRequest None None ip None.

Definition stored (k o : nat) (ip : string) : Vote.t :=
  Vote.mk (Some k) None o ip "" 0.

(** A holds two votes and B one. *)
Definition two_to_one : DB :=
  mkDB [poll] [option_A; option_B]
       [stored 1 1 "192.168.1.1"; stored 2 1 "192.168.1.2";
        stored 3 2 "192.168.1.3"].

(** Six options with one vote each. *)
Definition six_way : DB :=
  mkDB [poll]
       ((fun i => PollOption.mk i 1 ("Option " +:+ pretty i) 0 i) <$> [1; 2; 3; 4; 5; 6])
       ((fun i => stored i i ("192.168.1." +:+ pretty i)) <$> [1; 2; 3; 4; 5; 6]).

(** Two options without votes; the one stored first is displayed second. *)
Definition displayed_in_reverse : DB :=
  mkDB [poll]
       [PollOption.mk 1 1 "Option 1" 0 2; PollOption.mk 2 1 "Option 2" 0 1]
       [].

(** The request of [PollAPITest.test_create_poll]. *)
Definition test_create_poll : PollData :=
  mkPollData "Test Poll" "Test Description" None true false
             [mkOptionData "Option 1" (Some 1); mkOptionData "Option 2" (Some 2)].

(** The same request without display orders. *)
Definition create_without_order : PollData :=
  mkPollData "Test Poll" "Test Description" None true false
             [mkOptionData "Option 1" None; mkOptionData "Option 2" None].

Definition no_polls : DB := mkDB [] [] [].

(** A closed poll with one option and no votes. *)
Definition closed_poll : Poll.t :=
  Poll.mk 1 "Closed Poll" "" 1 0 (Some 3%Z) false false.
Definition closed_store : DB :=
  mkDB [closed_poll] [PollOption.mk 1 1 "Test Option" 0 1] [].
End Example.

(** ** More of the views ([polls/views.py]) and vocabulary for them *)

(** The string holds the character. *)
Fixpoint has_char (c : ascii) (s : string) : bool :=
  match s with
  | EmptyString => false
  | String c' s' => bool_decide (c' = c) || has_char c s'
  end.

(** A list of characters that does not end with white space. *)
Definition ends_clean (s : list ascii) : Prop := starts_clean (rev s).

(** A request that has not reached the write holds a vote without key. *)
Definition pending_unsaved (th : thread) : Prop :=
  match th_place th with
  | AtFullClean v | AtWrite v => Vote.pk v = None
  | _ => True
  end.

(** 1 for an accepted request, 0 for any other. *)
Definition one_if_accepted (th : thread) : nat :=
  if accepted th then 1 else 0.

(** ** Poll lists ([PollListCreateView.get_queryset], [user_polls]) *)

(** [a LEFT OUTER JOIN b]: the rows of [b] that match a row of [a], or one
    row of NULLs when none does. *)
Definition left_outer_join {B} (matching : list B) : list (option B) :=
  match matching with
  | [] => [None]
  | _ :: _ => Some <$> matching
  end.

(** [self.votes]: the vote rows of an option, as the table lists them. *)
Definition option_votes (db : DB) (o : PollOption.t) : list Vote.t :=
  filter (fun v => Vote.option v = PollOption.id o) (votes db).

(** The group of one poll in
    [poll LEFT OUTER JOIN option LEFT OUTER JOIN vote], which is the query
    that [Count('options__votes')] and [Count('options')] make the engine
    run: both aggregates of an [annotate] call read the same joined rows. *)
Definition joined_rows (db : DB) (p : Poll.t)
  : list (option PollOption.t * option Vote.t) :=
  o ← left_outer_join (poll_options db p);
  match o with
  | Some o' => (fun v => (Some o', v)) <$> left_outer_join (option_votes db o')
  | None => [(None, None)]
  end.

(** [Count(column)]: the rows of the group whose column is not NULL. *)
Definition Count {A} (column : list (option A)) : nat :=
  length (omap id column).

(** A poll with the annotations [total_votes] and [option_count]. *)
Module PollListRow.
Record t : Type := mk {
  poll : Poll.t;
  total_votes : nat;
  option_count : nat
}.
End PollListRow.

(** [.annotate(total_votes=Count('options__votes'),
              option_count=Count('options'))] *)
Definition annotate_counts (db : DB) (p : Poll.t) : PollListRow.t :=
  PollListRow.mk p (Count (snd <$> joined_rows db p))
                   (Count (fst <$> joined_rows db p)).

(** [.order_by('-key')]: rows with the same key stay in the order in which
    the engine lists them. *)
Fixpoint insert_desc {A} (key : A → Z) (r : A) (rows : list A) : list A :=
  match rows with
  | [] => [r]
  | x :: rows' =>
      if bool_decide (key x ≤ key r)%Z then r :: x :: rows'
      else x :: insert_desc key r rows'
  end.

Definition order_by_desc {A} (key : A → Z) (rows : list A) : list A :=
  foldr (insert_desc key) [] rows.

(** [needle in s] *)
Fixpoint contains (needle s : string) : bool :=
  String.prefix needle s ||
  match s with
  | EmptyString => false
  | String _ s' => contains needle s'
  end.

(** The lookup [icontains]: containment, the case of the letters ignored. *)
Definition icontains (value needle : string) : bool :=
  contains (lower needle) (lower value).

(** The lookups [expires_at__lt] and [expires_at__gt]: a comparison with
    NULL holds for no row. *)
Definition expires_at__lt (now : Z) (p : Poll.t) : bool :=
  match Poll.expires_at p with
  | Some e => bool_decide (e < now)%Z
  | None => false
  end.

Definition expires_at__gt (now : Z) (p : Poll.t) : bool :=
  match Poll.expires_at p with
  | Some e => bool_decide (now < e)%Z
  | None => false
  end.

Definition expires_at__isnull (p : Poll.t) : bool :=
  match Poll.expires_at p with
  | Some _ => false
  | None => true
  end.

(** [PollListCreateView.get_queryset]; [search] and [status] are the query
    parameters of the request. (The annotation [is_expired] is left out.) *)
Definition get_queryset (db : DB) (now : Z) (search status : option string)
  : list PollListRow.t :=
  let queryset := filter (fun p => Poll.is_active p = true) (polls db) in
  let queryset :=
    match search with
    | Some s =>
        if bool_decide (s = "") then queryset
        else filter (fun p => icontains (Poll.title p) s
                              || icontains (Poll.description p) s = true) queryset
    | None => queryset
    end in
  let queryset :=
    if bool_decide (status = Some "expired") then
      filter (fun p => expires_at__lt now p = true) queryset
    else if bool_decide (status = Some "active") then
      filter (fun p => expires_at__isnull p || expires_at__gt now p = true) queryset
    else queryset in
  annotate_counts db <$> order_by_desc Poll.created_at queryset.

(** [user_polls] *)
Definition user_polls (db : DB) (user : nat) : list PollListRow.t :=
  annotate_counts db
    <$> order_by_desc Poll.created_at
          (filter (fun p => Poll.created_by p = user) (polls db)).

(** The options of the poll, each as often as the annotation
    [option_count] counts it. *)
Definition times_counted (db : DB) (o : PollOption.t) : nat :=
  1 `max` count_votes db (PollOption.id o).

(** ** Statistics ([vote_statistics]) *)

(** A row of [.values('id', 'title', 'vote_count', 'created_at')]. *)
Module TopPoll.
Record t : Type := mk {
  id : nat;
  title : string;
  vote_count : nat;
  created_at : Z
}.
End TopPoll.

Module Stats.
Record t : Type := mk {
  total_polls : nat;
  total_votes : nat;
  active_polls : nat;
  recent_votes : nat;
  top_polls : list TopPoll.t
}.
End Stats.

(** [.annotate(vote_count=Count('options__votes'))] with the columns of
    [.values(...)]. *)
Definition annotate_vote_count (db : DB) (p : Poll.t) : TopPoll.t :=
  TopPoll.mk (Poll.id p) (Poll.title p) (Count (snd <$> joined_rows db p))
             (Poll.created_at p).

Section Statistics.
(** [timedelta(days=1)], in the unit of the time stamps. *)
Variable day : Z.

(** [vote_statistics] *)
Definition vote_statistics (db : DB) (now : Z) : Stats.t :=
  let total_polls := length (polls db) in
  let total_votes := length (votes db) in
  let active_polls :=
    length (filter (fun p => Poll.is_active p && expires_at__gt now p = true)
                   (polls db)) in
  let recent_votes :=
    length (filter (fun v => (now - day ≤ Vote.created_at v)%Z) (votes db)) in
  let top_polls :=
    take 5 (order_by_desc (fun r => Z.of_nat (TopPoll.vote_count r))
              (filter (fun r => 0 < TopPoll.vote_count r)
                      (annotate_vote_count db <$> polls db))) in
  Stats.mk total_polls total_votes active_polls recent_votes top_polls.
End Statistics.

(** A poll for which [VoteSerializer.validate_option] lets a vote pass. *)
Definition open_for_voting (now : Z) (p : Poll.t) : bool :=
  Poll.is_active p && negb (Poll.is_expired now p).

(** ** Changing and deleting a poll ([toggle_poll_status],
    [PollDetailView.destroy]) *)

(** A value of the request body, as the parser hands it over. *)
#[warnings="-register-all"] Inductive py_value : Type :=
| PyNone
| PyBool (b : bool)
| PyInt (n : Z)
| PyFloat (mantissa exponent : Z)
| PyStr (s : string)
| PyList (items : list py_value)
| PyDict (items : list (string * py_value)).

(** Python's [bool(value)] *)
Definition bool_ (value : py_value) : bool :=
  match value with
  | PyNone => false
  | PyBool b => b
  | PyInt n => negb (bool_decide (n = 0%Z))
  | PyFloat mantissa _ => negb (bool_decide (mantissa = 0%Z))
  | PyStr s => negb (bool_decide (s = ""))
  | PyList items => exists_ items
  | PyDict items => exists_ items
  end.

(** What a view answers. [Http404] is the exception that [get_object]
    raises for a key that names no row; the framework answers it with the
    status 404. *)
Inductive response (A : Type) : Type :=
| Response200 (data : A)
| Response204
| Response403 (error : string)
| Response404 (error : string)
| Http404.
Arguments Response200 {A} data.
Arguments Response204 {A}.
Arguments Response403 {A} error.
Arguments Response404 {A} error.
Arguments Http404 {A}.

Definition set_is_active (b : bool) (p : Poll.t) : Poll.t :=
  Poll.mk (Poll.id p) (Poll.title p) (Poll.description p) (Poll.created_by p)
          (Poll.created_at p) (Poll.expires_at p) b (Poll.allow_multiple_votes p).

(** [poll.save()] for a poll that has a key: the row under the key is
    updated, and inserted when the table has none. *)
Definition Poll_save (rows : list Poll.t) (self : Poll.t) : list Poll.t :=
  if exists_ (filter (fun q => Poll.id q = Poll.id self) rows)
  then (fun q => if bool_decide (Poll.id q = Poll.id self) then self else q) <$> rows
  else rows ++ [self].

(** [toggle_poll_status]; [user] is [request.user] and [is_active] is
    [request.data.get('is_active')]. *)
Definition toggle_poll_status (db : DB) (user pk : nat) (is_active : py_value)
  : response Poll.t * DB :=
  match get_poll db pk with
  | None => (Response404 "Poll not found.", db)
  | Some poll =>
      if bool_decide (Poll.created_by poll ≠ user) then
        (Response403 "You can only modify your own polls.", db)
      else
        match is_active with
        | PyNone => (Response200 poll, db)
        | _ =>
            let poll := set_is_active (bool_ is_active) poll in
            (Response200 poll, with_polls (Poll_save (polls db) poll) db)
        end
  end.

(** [poll.delete()]: the options of the poll and the votes of these
    options go with it, as [on_delete=CASCADE] says. *)
Definition Poll_delete (db : DB) (self : Poll.t) : DB :=
  let option_ids := PollOption.id <$> poll_options db self in
  mkDB (filter (fun q => Poll.id q ≠ Poll.id self) (polls db))
       (filter (fun o => PollOption.poll o ≠ Poll.id self) (options db))
       (filter (fun v => Vote.option v ∉ option_ids) (votes db)).

(** [PollDetailView.destroy] *)
Definition destroy (db : DB) (user pk : nat) : response unit * DB :=
  match get_poll db pk with
  | None => (Http404, db)
  | Some poll =>
      if bool_decide (Poll.created_by poll ≠ user) then
        (Response403 "You can only delete your own polls.", db)
      else (Response204, Poll_delete db poll)
  end.

(** Every option belongs to a stored poll and every vote names a stored
    option, and the keys of polls and options are unique. *)
Definition consistent (db : DB) : Prop :=
  NoDup (Poll.id <$> polls db) ∧
  NoDup (PollOption.id <$> options db) ∧
  Forall (fun o => PollOption.poll o ∈ Poll.id <$> polls db) (options db) ∧
  Forall (fun v => Vote.option v ∈ PollOption.id <$> options db) (votes db).

(** The order that [.order_by('-key')] gives: the earlier row has the
    greater or the same key. *)
Definition descending {A} (key : A → Z) (a b : A) : Prop := (key b ≤ key a)%Z.

(** The key of [.order_by('-vote_count')] on the rows of the statistics. *)
Definition by_votes (r : TopPoll.t) : Z := Z.of_nat (TopPoll.vote_count r).

(** What the query parameters [search] and [status] ask of a poll. *)
Definition search_matches (search : option string) (p : Poll.t) : bool :=
  match search with
  | Some s =>
      bool_decide (s = "") || icontains (Poll.title p) s
      || icontains (Poll.description p) s
  | None => true
  end.

Definition status_matches (now : Z) (status : option string) (p : Poll.t) : bool :=
  if bool_decide (status = Some "expired") then expires_at__lt now p
  else if bool_decide (status = Some "active")
       then expires_at__isnull p || expires_at__gt now p
       else true.

(** * Properties *)

(** ** The store after [Vote.save] *)

Lemma get_poll_id db pid p : get_poll db pid = Some p → Poll.id p = pid.
Proof.
  unfold get_poll. intros H. apply find_some in H as [_ H].
  by apply bool_decide_eq_true in H.
Qed.

Lemma get_option_id db oid o : get_option db oid = Some o → PollOption.id o = oid.
Proof.
  unfold get_option. intros H. apply find_some in H as [_ H].
  by apply bool_decide_eq_true in H.
Qed.

Lemma exists_false {A} (rows : list A) : exists_ rows = false → rows = [].
Proof. by destruct rows. Qed.

Lemma exists_true {A} (rows : list A) x : x ∈ rows → exists_ rows = true.
Proof. destruct rows; [by intros ?%elem_of_nil | done]. Qed.

Lemma exists_false_intro {A} (rows : list A) :
  (∀ x, x ∉ rows) → exists_ rows = false.
Proof. destruct rows as [|x rows]; [done|]. intros Hno. destruct (Hno x). left. Qed.

(** A row is in a filtered queryset: one filter after the other. *)
Ltac in_queryset :=
  repeat (apply list_elem_of_filter; split; [done|]); done.

(** A vote that passed [Vote.clean] for a single-vote poll has no duplicate
    among the stored rows. *)
Lemma Vote_clean_Ok db v pid :
  Vote_clean db v = Ok tt →
  single_vote_poll db pid →
  vote_poll db v = Some pid →
  no_duplicate db pid v.
Proof.
  intros Hclean (p & Hp & Hsingle) Hv w Hw Hwp Hpk.
  unfold Vote_clean, vote_poll in *.
  destruct (get_option db (Vote.option v)) as [o|]; simplify_eq/=.
  rewrite Hp in Hclean. simpl in Hclean. rewrite Hsingle in Hclean. simpl in Hclean.
  rewrite (get_poll_id _ _ _ Hp) in Hclean.
  split.
  - intros u Hu Hwu. rewrite Hu in Hclean.
    rewrite (exists_true _ w) in Hclean; [done|in_queryset].
  - intros Hip.
    destruct (match Vote.user v with Some _ => _ | None => _ end); [done|].
    rewrite (exists_true _ w) in Hclean; [done|in_queryset].
Qed.

Lemma fresh_pk_new rows w : w ∈ rows → Vote.pk w ≠ Some (fresh_pk rows).
Proof.
  intros Hw Heq.
  assert (fresh_pk rows ≤ max_list (omap Vote.pk rows)); [|unfold fresh_pk in *; lia].
  apply max_list_elem_of_le, list_elem_of_omap. eauto.
Qed.

(** The rows after [Model.save]: the saved row, and the rows with another
    key, unchanged. *)
Lemma Model_save_rows rows v row rows' :
  keyed rows → Model_save rows v = (row, rows') →
  Vote.user row = Vote.user v ∧ Vote.option row = Vote.option v ∧
  Vote.ip_address row = Vote.ip_address v ∧
  keyed rows' ∧
  ∀ w, w ∈ rows' → w = row ∨ (w ∈ rows ∧ Vote.pk w ≠ Vote.pk row ∧ Vote.pk w ≠ Vote.pk v).
Proof.
  intros [Hsome Hnodup] Hsave. unfold Model_save in Hsave.
  destruct (Vote.pk v) as [k|] eqn:Hk.
  - destruct (exists_ _) eqn:Hex; simplify_eq.
    + repeat split; try done.
      * apply Forall_fmap, Forall_forall. intros w Hw. simpl.
        case_bool_decide; [by rewrite Hk | by eapply Forall_forall in Hsome].
      * rewrite <-list_fmap_compose.
        erewrite list_fmap_ext; [done|]. intros i w _. simpl.
        case_bool_decide; congruence.
      * intros w (w0 & -> & Hw0)%list_elem_of_fmap.
        case_bool_decide; [by left | right]. rewrite Hk. by repeat split.
    + apply exists_false in Hex.
      assert (Hnew : ∀ w, w ∈ rows → Vote.pk w ≠ Some k).
      { intros w Hw Hwk. eapply filter_nil_not_elem_of; [exact Hex | exact Hwk | exact Hw]. }
      repeat split; try done.
      * apply Forall_app. split; [done|]. constructor; [by rewrite Hk | done].
      * rewrite fmap_app. apply NoDup_app. repeat split; [done| |apply NoDup_singleton].
        intros x (w & -> & Hw)%list_elem_of_fmap Hx.
        apply list_elem_of_singleton in Hx. rewrite Hk in Hx. by eapply Hnew.
      * intros w [Hw | ->%list_elem_of_singleton]%elem_of_app; [right | by left].
        rewrite Hk. repeat split; auto.
  - simplify_eq. repeat split; try done.
    + apply Forall_app. split; [done|]. constructor; [by eexists | done].
    + rewrite fmap_app. apply NoDup_app. repeat split; [done| |apply NoDup_singleton].
      intros x (w & -> & Hw)%list_elem_of_fmap Hx.
      apply list_elem_of_singleton in Hx. simpl in Hx. by eapply fresh_pk_new.
    + intros w [Hw | ->%list_elem_of_singleton]%elem_of_app; [right | by left].
      repeat split; [done| simpl; by apply fresh_pk_new |].
      eapply Forall_forall in Hsome as [? Hs]; [|done]. by rewrite Hs.
Qed.

Lemma Vote_save_Ok valid_ip db v row db' :
  Vote_save valid_ip db v = Ok (row, db') →
  valid_ip (Vote.ip_address v) = true ∧ Vote_clean db v = Ok tt ∧
  ∃ rows, Model_save (votes db) v = (row, rows) ∧ db' = with_votes rows db.
Proof.
  unfold Vote_save, Vote_full_clean, Vote_clean_fields.
  destruct (valid_ip _); [|done]. simpl.
  destruct (Vote_clean db v) as [[]|]; [|done]. simpl.
  destruct (Model_save _ _) as [row0 rows]. intros; simplify_eq. eauto.
Qed.

(** [Vote.save] keeps the store keyed and free of conflicts, and touches no
    other table. *)
Lemma Vote_save_preserves valid_ip db v row db' :
  keyed (votes db) → conflict_free db →
  Vote_save valid_ip db v = Ok (row, db') →
  keyed (votes db') ∧ conflict_free db' ∧
  polls db' = polls db ∧ options db' = options db.
Proof.
  intros Hkeyed Hfree (_ & Hclean & rows & Hsave & ->)%Vote_save_Ok.
  destruct (Model_save_rows _ _ _ _ Hkeyed Hsave)
    as (Huser & Hopt & Hip & Hkeyed' & Hrows).
  split; [exact Hkeyed'|]. split; [|done].
  assert (Hpoll : vote_poll db row = vote_poll db v).
  { unfold vote_poll. by rewrite Hopt. }
  unfold conflict_free; simpl.
  intros w1 w2 pid [-> | (H1 & Hk1 & Hv1)]%Hrows [-> | (H2 & Hk2 & Hv2)]%Hrows
    Hne Hsingle Hp1 Hp2; [done | | | by eapply (Hfree w1 w2)].
  - change (vote_poll db row = Some pid) in Hp1. rewrite Hpoll in Hp1.
    destruct (Vote_clean_Ok db v pid Hclean Hsingle Hp1 w2 H2 Hp2 Hv2) as [Hu Hi].
    rewrite Huser, Hip. split; [exact Hu | congruence].
  - change (vote_poll db row = Some pid) in Hp2. rewrite Hpoll in Hp2.
    destruct (Vote_clean_Ok db v pid Hclean Hsingle Hp2 w1 H1 Hp1 Hv1) as [Hu Hi].
    rewrite Huser, Hip. split; [|done].
    intros u Hw1 Hvu. by apply (Hu u).
Qed.

Lemma save_each_preserves valid_ip vs db :
  keyed (votes db) → conflict_free db →
  let db' := save_each valid_ip db vs in
  keyed (votes db') ∧ conflict_free db' ∧
  polls db' = polls db ∧ options db' = options db.
Proof.
  revert db. induction vs as [|v vs IH]; intros db Hkeyed Hfree; simpl; [done|].
  destruct (Vote_save valid_ip db v) as [[row db1]|] eqn:Hsave; [|by apply IH].
  destruct (Vote_save_preserves _ _ _ _ _ Hkeyed Hfree Hsave) as (? & ? & Hp & Ho).
  destruct (IH db1) as (? & ? & Hp' & Ho'); [done..|].
  split; [done|]. split; [done|]. split; congruence.
Qed.

(** Rows that pairwise exclude each other under [P] leave at most one row
    in the filter. *)
Lemma filter_at_most_one (P : Vote.t → Prop) `{!∀ w, Decision (P w)} rows :
  NoDup (Vote.pk <$> rows) →
  (∀ w1 w2, w1 ∈ rows → w2 ∈ rows → Vote.pk w1 ≠ Vote.pk w2 → P w1 → P w2 → False) →
  length (filter P rows) ≤ 1.
Proof.
  induction rows as [|w rows IH]; intros Hnodup Hexcl; [simpl; lia|].
  rewrite fmap_cons in Hnodup. apply NoDup_cons in Hnodup as [Hnew Hnodup].
  rewrite filter_cons. destruct (decide (P w)) as [Hw|Hw].
  - assert (Hnone : filter P rows = []); [|rewrite Hnone; simpl; lia].
    destruct (filter P rows) as [|w' l] eqn:Hfilter; [done|exfalso].
    assert (Hin : w' ∈ filter P rows) by (rewrite Hfilter; left).
    apply list_elem_of_filter in Hin as [Hw' Hin].
    apply (Hexcl w w'); [left | by right | | done | done].
    intros Heq. apply Hnew. rewrite Heq. by apply list_elem_of_fmap_2.
  - apply IH; [done|]. intros w1 w2 H1 H2. apply Hexcl; by right.
Qed.

Lemma conflict_free_at_most_one db pid :
  keyed (votes db) → conflict_free db → single_vote_poll db pid →
  at_most_one_vote_per_identity db pid ∧ at_most_one_vote_per_address db pid.
Proof.
  intros [_ Hnodup] Hfree Hsingle. split.
  - intros u. unfold filter_user, votes_of_poll. rewrite list_filter_filter.
    apply filter_at_most_one; [done|].
    intros w1 w2 H1 H2 Hne [Hu1 Hp1] [Hu2 Hp2].
    destruct (Hfree w1 w2 pid) as [Hu _]; try done. by apply (Hu u).
  - intros ip. unfold filter_ip, votes_of_poll. rewrite list_filter_filter.
    apply filter_at_most_one; [done|].
    intros w1 w2 H1 H2 Hne [Hi1 Hp1] [Hi2 Hp2].
    destruct (Hfree w1 w2 pid) as [_ Hi]; try done. congruence.
Qed.

(** C1. For a poll that disallows multiple votes, after any sequence of
    votes saved through [Vote.save] on a store that starts without votes,
    at most one vote of the poll carries a given identity and at most one
    carries a given network address. *)
Theorem save_keeps_one_vote_per_identity_and_address
    valid_ip (ps : list Poll.t) (os : list PollOption.t) (vs : list Vote.t) pid :
  let db := save_each valid_ip (mkDB ps os []) vs in
  single_vote_poll db pid →
  at_most_one_vote_per_identity db pid ∧ at_most_one_vote_per_address db pid.
Proof.
  intros db Hsingle.
  destruct (save_each_preserves valid_ip vs (mkDB ps os [])) as (Hk & Hf & _).
  - split; [constructor | simpl; constructor].
  - intros w1 w2 ? Hw1. simpl in Hw1. by apply elem_of_nil in Hw1.
  - by apply conflict_free_at_most_one.
Qed.

Lemma save_keeps_one_vote_per_identity_and_address_witness :
  let db := save_each Example.ipv4 Example.empty_store
              [Vote.mk None None 1 "10.0.0.1" "" 5;
               Vote.mk None None 2 "10.0.0.1" "" 6;
               Vote.mk None (Some 7) 2 "10.0.0.2" "" 7;
               Vote.mk None (Some 7) 1 "10.0.0.3" "" 8] in
  at_most_one_vote_per_identity db 1 ∧ at_most_one_vote_per_address db 1.
Proof.
  apply (save_keeps_one_vote_per_identity_and_address Example.ipv4
           [Example.poll] [Example.option_A; Example.option_B]).
  exists Example.poll. split; reflexivity.
Defined.

(** ** Requests served in turn and concurrently *)

Lemma VoteSerializer_is_valid_Ok db now request data o :
  VoteSerializer_is_valid db now (Some request) data = Ok o →
  get_option db data = Some o ∧
  ∃ p, get_poll db (PollOption.poll o) = Some p ∧
       Poll.is_active p = true ∧ Poll.is_expired now p = false.
Proof.
  unfold VoteSerializer_is_valid, option_to_internal_value, validate_option.
  destruct (get_option db data) as [o'|]; [|done]. simpl.
  destruct (get_poll db (PollOption.poll o')) as [p|] eqn:Hp; [|done]. simpl.
  destruct (Poll.is_active p) eqn:Hact; [|done]. simpl.
  destruct (Poll.is_expired now p) eqn:Hexp; [done|]. simpl.
  unfold validate. rewrite Hp. simpl. intros Hvalid.
  assert (o' = o) as ->; [by repeat case_match; simplify_eq|].
  split; [done|]. by exists p.
Qed.












(** ** The order of the validator's checks *)

Lemma exists_filter {A} (P Q : A → Prop)
    `{!∀ x, Decision (P x)} `{!∀ x, Decision (Q x)} (l : list A) :
  (∀ x, P x ↔ Q x) →
  exists_ (filter P l) = existsb (fun x => bool_decide (Q x)) l.
Proof.
  intros HPQ. induction l as [|x l IH]; [done|].
  rewrite filter_cons. simpl. destruct (decide (P x)) as [Hx|Hx].
  - rewrite bool_decide_eq_true_2; [done|]. by apply HPQ.
  - rewrite bool_decide_eq_false_2; [done|]. by rewrite <-HPQ.
Qed.

Lemma prior_vote_by_identity_filter db p u :
  exists_ (filter_user u (votes_of_poll db (Poll.id p)))
  = prior_vote_by_identity db p u.
Proof.
  unfold filter_user, votes_of_poll, prior_vote_by_identity.
  rewrite list_filter_filter. apply exists_filter. tauto.
Qed.

Lemma prior_vote_by_address_filter db p a :
  exists_ (filter_ip a (votes_of_poll db (Poll.id p)))
  = prior_vote_by_address db p a.
Proof.
  unfold filter_ip, votes_of_poll, prior_vote_by_address.
  rewrite list_filter_filter. apply exists_filter. tauto.
Qed.

Lemma is_expired_not_expired now p : Poll.is_expired now p = negb (not_expired now p).
Proof.
  unfold Poll.is_expired, not_expired. destruct (Poll.expires_at p) as [e|]; [|done].
  repeat case_bool_decide; simpl; try done; lia.
Qed.

(** C3. The serializer resolves the submitted option, which gives the poll
    state of the request, and then answers as the ordered checks do: poll
    active, poll not expired, option of the poll, no prior vote from the
    identity, no prior vote from the address. A key that names no option is
    answered with the reason of the missing option. *)
Theorem validation_applies_checks_in_order db now request data :
  VoteSerializer_is_valid db now (Some request) data =
  match get_option db data with
  | None => Raise (SerializerValidationError (message OptionNotFound))
  | Some o =>
      match get_poll db (PollOption.poll o) with
      | None => Raise DoesNotExist
      | Some pollState =>
          answer o (validate_in_order db now pollState data
                      (request_user request) (get_client_ip request))
      end
  end.
Proof.
  unfold VoteSerializer_is_valid, option_to_internal_value, validate_option,
    validate, validate_in_order, option_belongs.
  destruct (get_option db data) as [o|] eqn:Ho; [|done]. simpl.
  destruct (get_poll db (PollOption.poll o)) as [p|] eqn:Hp; [|done]. simpl.
  rewrite is_expired_not_expired.
  destruct (Poll.is_active p); [|done]. simpl.
  destruct (not_expired now p); [|done]. simpl.
  rewrite Hp. simpl.
  rewrite bool_decide_eq_true_2 by (symmetry; by eapply get_poll_id). simpl.
  destruct (Poll.allow_multiple_votes p); [done|]. simpl.
  rewrite prior_vote_by_address_filter.
  destruct (request_user request) as [u|].
  - rewrite prior_vote_by_identity_filter.
    destruct (prior_vote_by_identity db p u); [done|].
    by destruct (prior_vote_by_address _ _ _).
  - by destruct (prior_vote_by_address _ _ _).
Qed.

(** A poll that is both inactive and expired is reported as inactive, the
    first check of the list. *)
Lemma validation_applies_checks_in_order_witness :
  VoteSerializer_is_valid Example.closed_store 5
    (Some (Example.anonymous "192.168.1.1")) 1
  = Raise (SerializerValidationError "This poll is not active.") ∧
  Poll.is_expired 5 Example.closed_poll = true.
Proof.
  split; [|reflexivity].
  rewrite (validation_applies_checks_in_order Example.closed_store 5
             (Example.anonymous "192.168.1.1") 1).
  reflexivity.
Defined.

(** ** The result set *)

Lemma insert_by_vote_count_Permutation r rows :
  insert_by_vote_count r rows ≡ₚ r :: rows.
Proof.
  induction rows as [|x rows IH]; simpl; [done|].
  case_bool_decide; [done|]. rewrite IH. apply perm_swap.
Qed.

Lemma order_by_vote_count_desc_Permutation rows :
  order_by_vote_count_desc rows ≡ₚ rows.
Proof.
  induction rows as [|r rows IH]; simpl; [done|].
  by rewrite insert_by_vote_count_Permutation, IH.
Qed.

Lemma insert_by_vote_count_sorted r rows :
  StronglySorted count_ge rows →
  StronglySorted count_ge (insert_by_vote_count r rows).
Proof.
  induction rows as [|x rows IH]; simpl; intros Hsorted.
  { repeat constructor. }
  apply StronglySorted_inv in Hsorted as [Hrows Hx].
  case_bool_decide as Hle.
  - constructor; [by constructor|]. constructor; [done|].
    eapply Forall_impl; [exact Hx|]. unfold count_ge. intros; lia.
  - constructor; [by apply IH|].
    rewrite insert_by_vote_count_Permutation. constructor; [|done].
    unfold count_ge. lia.
Qed.

Lemma order_by_vote_count_desc_sorted rows :
  StronglySorted count_ge (order_by_vote_count_desc rows).
Proof.
  induction rows as [|r rows IH]; simpl; [constructor|].
  by apply insert_by_vote_count_sorted.
Qed.

Lemma StronglySorted_lookup {A} (R : A → A → Prop) l i j a b :
  StronglySorted R l → i < j → l !! i = Some a → l !! j = Some b → R a b.
Proof.
  intros Hsorted. revert i j.
  induction Hsorted as [|x l _ IH Hx]; intros i j Hij Hi Hj; [done|].
  destruct j as [|j]; [lia|]. destruct i as [|i]; simpl in *.
  - simplify_eq. eapply Forall_forall in Hx; [done|].
    by eapply list_elem_of_lookup_2.
  - apply (IH i j); [lia|done..].
Qed.

(** The rows of a result, before the percentages are added. *)
Lemma get_results_options db now self :
  Results.options (get_results db now self)
  = add_percentage (Results.total_votes (get_results db now self))
      <$> order_by_vote_count_desc (annotate_values db <$> poll_options db self).
Proof. done. Qed.

Lemma get_results_descending db now self :
  by_descending_count (Results.options (get_results db now self)).
Proof.
  rewrite get_results_options. intros i j a b Hij Ha Hb.
  rewrite list_lookup_fmap in Ha, Hb.
  destruct (_ !! i) as [a'|] eqn:Hi; [|done].
  destruct (_ !! j) as [b'|] eqn:Hj; [|done]. simplify_eq/=.
  eapply (StronglySorted_lookup count_ge); [|done..].
  apply order_by_vote_count_desc_sorted.
Qed.



(** *** The total is the number of votes of the poll *)

Lemma options_with_id_in_poll os k pid :
  NoDup (PollOption.id <$> os) →
  length (filter (fun o => k = PollOption.id o)
            (filter (fun o => PollOption.poll o = pid) os))
  = if decide (PollOption.poll
                 <$> List.find (fun o => bool_decide (PollOption.id o = k)) os
               = Some pid)
    then 1 else 0.
Proof.
  induction os as [|o os IH]; [done|].
  rewrite fmap_cons, NoDup_cons. intros [Hnew Hnodup]. simpl.
  case_bool_decide as Hk.
  - assert (Hrest : filter (fun o => k = PollOption.id o)
                      (filter (fun o => PollOption.poll o = pid) os) = []).
    { destruct (filter _ (filter _ os)) as [|o' l] eqn:Hfilter; [done|exfalso].
      assert (Hin : o' ∈ filter (fun o => k = PollOption.id o)
                          (filter (fun o => PollOption.poll o = pid) os))
        by (rewrite Hfilter; left).
      apply list_elem_of_filter in Hin as [Hid Hin].
      apply list_elem_of_filter in Hin as [_ Hin].
      apply Hnew. rewrite Hk, Hid. by apply list_elem_of_fmap_2. }
    rewrite filter_cons. simpl.
    destruct (decide (PollOption.poll o = pid)) as [Hpid|Hpid].
    + rewrite filter_cons, decide_True by done. rewrite Hrest.
      by rewrite decide_True by congruence.
    + rewrite Hrest. by rewrite decide_False by congruence.
  - rewrite filter_cons.
    destruct (decide (PollOption.poll o = pid)); [|by apply IH].
    rewrite filter_cons, decide_False by done. by apply IH.
Qed.

Lemma sum_of_counts (os : list PollOption.t) (vs : list Vote.t) :
  sum_list_with
    (fun o => length (filter (fun v => Vote.option v = PollOption.id o) vs)) os
  = sum_list_with
      (fun v => length (filter (fun o => Vote.option v = PollOption.id o) os)) vs.
Proof.
  induction vs as [|v vs IH]; simpl.
  { induction os as [|o os IHos]; simpl; [done|]. by rewrite IHos. }
  rewrite <-IH. clear IH.
  induction os as [|o os IHos]; simpl; [done|].
  rewrite !filter_cons. destruct (decide (Vote.option v = PollOption.id o)); simpl; lia.
Qed.

(** With option keys that are unique, the total of a result is
    [Poll.total_votes]: every stored vote for an option of the poll counts,
    once. *)
Lemma get_results_total_votes db now self :
  NoDup (PollOption.id <$> options db) →
  Results.total_votes (get_results db now self) = Poll_total_votes db self.
Proof.
  intros Hnodup. unfold get_results, Poll_total_votes, votes_of_poll. simpl.
  rewrite order_by_vote_count_desc_Permutation.
  transitivity (sum_list_with
                  (fun o => length (filter (fun v => Vote.option v = PollOption.id o)
                                      (votes db)))
                  (poll_options db self)).
  { generalize (poll_options db self). intros os.
    induction os as [|o os IH]; simpl; [done|]. by rewrite <-IH. }
  rewrite sum_of_counts.
  induction (votes db) as [|v vs IH]; simpl; [done|].
  rewrite IH, filter_cons. unfold poll_options at 1.
  rewrite (options_with_id_in_poll _ _ _ Hnodup).
  change (vote_poll db v)
    with (PollOption.poll
            <$> List.find (fun o => bool_decide (PollOption.id o = Vote.option v))
                  (options db)).
  destruct (decide (_ = Some (Poll.id self))); simpl; lia.
Qed.

(** ** The sum of the percentages *)

(** Rounding moves a quotient by at most one half. *)
Lemma round_half_even_nearest n d :
  (0 < d)%Z → (Z.abs (2 * (round_half_even n d * d - n)) <= d)%Z.
Proof.
  intros Hd. unfold round_half_even.
  pose proof (Z.div_mod n d ltac:(lia)) as Hdiv.
  pose proof (Z.mod_pos_bound n d Hd) as Hmod.
  repeat case_bool_decide; try destruct (Z.even _); nia.
Qed.

Lemma percentage_of_nearest c t :
  0 < t →
  (Z.abs (2 * (percentage_of c t * Z.of_nat t - Z.of_nat c * 10000)) <= Z.of_nat t)%Z.
Proof.
  intros Ht. unfold percentage_of. rewrite bool_decide_eq_true_2 by done.
  apply round_half_even_nearest. lia.
Qed.

Lemma sum_percentages_nearest t (rows : list ValuesRow.t) :
  0 < t →
  (Z.abs (2 * (sum_percentages (add_percentage t <$> rows) * Z.of_nat t
               - Z.of_nat (sum_list (ValuesRow.vote_count <$> rows)) * 10000))
   <= Z.of_nat (length rows) * Z.of_nat t)%Z.
Proof.
  intros Ht. induction rows as [|r rows IH]; csimpl; [lia|].
  pose proof (percentage_of_nearest (ValuesRow.vote_count r) t Ht).
  unfold sum_percentages in *. csimpl. lia.
Qed.

(** C5, amended. With votes, the percentages of a result add up to 100
    within 0.005 for each option of the poll (half a hundredth per row);
    without votes every percentage is 0. *)
Theorem percentages_add_up_within_half_a_hundredth_per_option db now self :
  let r := get_results db now self in
  (0 < Results.total_votes r →
   (2 * Z.abs (sum_percentages (Results.options r) - 10000)
    <= Z.of_nat (length (poll_options db self)))%Z) ∧
  (Results.total_votes r = 0 →
   ∀ row, row ∈ Results.options r → ResultRow.percentage row = 0%Z).
Proof.
  intros r. split.
  - intros Htotal. unfold r in *. rewrite get_results_options.
    set (rows := order_by_vote_count_desc _) in *.
    set (t := Results.total_votes _) in *.
    pose proof (sum_percentages_nearest t rows Htotal) as Hsum.
    assert (Ht : sum_list (ValuesRow.vote_count <$> rows) = t) by done.
    assert (Hlen : length rows = length (poll_options db self)).
    { unfold rows. rewrite order_by_vote_count_desc_Permutation.
      by rewrite length_fmap. }
    rewrite Ht, Hlen in Hsum. nia.
  - intros Htotal row. unfold r in *. rewrite get_results_options, Htotal.
    by intros (vr & -> & _)%list_elem_of_fmap.
Qed.

(** C5, as stated, fails: six options with one vote each get 16.67 each,
    which add up to 100.02. *)
Lemma six_equal_shares_add_up_to_100_02 :
  Results.total_votes (get_results Example.six_way 5 Example.poll) = 6 ∧
  sum_percentages (Results.options (get_results Example.six_way 5 Example.poll))
    = 10002%Z ∧
  ¬ percentages_add_up 1 (get_results Example.six_way 5 Example.poll).
Proof.
  split; [by vm_compute|]. split; [by vm_compute|].
  intros [Hsum _]. vm_compute in Hsum. apply Hsum; [lia|done].
Qed.

(** Two options with 2 votes and 1 vote: 66.67 and 33.33 add up to 100. *)
Lemma percentages_add_up_within_half_a_hundredth_per_option_witness :
  (2 * Z.abs (sum_percentages
                (Results.options (get_results Example.two_to_one 5 Example.poll))
              - 10000)
   <= Z.of_nat (length (poll_options Example.two_to_one Example.poll)))%Z.
Proof.
  apply (proj1 (percentages_add_up_within_half_a_hundredth_per_option
                  Example.two_to_one 5 Example.poll)).
  vm_compute. lia.
Defined.

(** ** The order of the rows *)

Lemma poll_options_reordered f db self :
  poll_options (reordered f db) self = set_order f <$> poll_options db self.
Proof.
  unfold poll_options, reordered. simpl.
  induction (options db) as [|o os IH]; [done|]. csimpl.
  rewrite !filter_cons. simpl.
  destruct (decide (PollOption.poll o = Poll.id self)); csimpl; by rewrite IH.
Qed.

(** C6, amended. The rows of a result come by vote count, largest first,
    and the display order of the options plays no part: the result is the
    same whatever the display orders are. *)
Theorem results_ordered_by_count_alone db now self :
  by_descending_count (Results.options (get_results db now self)) ∧
  ∀ f, get_results (reordered f db) now self = get_results db now self.
Proof.
  split; [apply get_results_descending|].
  intros f. unfold get_results. rewrite poll_options_reordered.
  rewrite <-list_fmap_compose.
  by change (annotate_values (reordered f db) ∘ set_order f)
    with (annotate_values db).
Qed.

(** C6, as stated, fails: of two options without votes, the one stored
    first comes first in the result although it is displayed second. *)
Lemma tie_not_broken_by_display_order :
  ResultRow.id <$> Results.options
    (get_results Example.displayed_in_reverse 5 Example.poll) = [1; 2] ∧
  ¬ ties_by_display_order Example.displayed_in_reverse
      (Results.options (get_results Example.displayed_in_reverse 5 Example.poll)).
Proof.
  split; [by vm_compute|].
  intros Hties.
  specialize (Hties 0 1 (ResultRow.mk 1 "Option 1" 0 0) (ResultRow.mk 2 "Option 2" 0 0)).
  vm_compute in Hties.
  specialize (Hties ltac:(lia) eq_refl eq_refl eq_refl). lia.
Qed.

(** ** The option list of a new poll *)

Lemma lstrip_starts_clean s : starts_clean (lstrip s).
Proof. induction s as [|c s IH]; simpl; [done|]. by destruct (isspace c) eqn:?. Qed.

Lemma starts_clean_lstrip s : starts_clean s → lstrip s = s.
Proof. destruct s as [|c s]; simpl; [done|]. by intros ->. Qed.

Lemma lstrip_suffix s : ∃ t, s = t ++ lstrip s.
Proof.
  induction s as [|c s [t IH]]; simpl; [by exists []|].
  destruct (isspace c); [|by exists []].
  exists (c :: t). simpl. by rewrite <-IH.
Qed.

Lemma rstrip_prefix s : ∃ t, s = rstrip s ++ t.
Proof.
  unfold rstrip. destruct (lstrip_suffix (rev s)) as [t Ht].
  exists (rev t). by rewrite <-rev_app_distr, <-Ht, rev_involutive.
Qed.

Lemma rstrip_starts_clean s : starts_clean s → starts_clean (rstrip s).
Proof.
  destruct (rstrip_prefix s) as [t Ht]. intros Hs.
  destruct (rstrip s) as [|c s']; [done|]. by rewrite Ht in Hs.
Qed.

Lemma rstrip_rstrip s : rstrip (rstrip s) = rstrip s.
Proof.
  unfold rstrip. rewrite rev_involutive. f_equal.
  apply starts_clean_lstrip, lstrip_starts_clean.
Qed.

(** Trimming twice is trimming once. *)
Lemma strip_strip s : strip (strip s) = strip s.
Proof.
  unfold strip. rewrite list_ascii_of_string_of_list_ascii. f_equal.
  rewrite starts_clean_lstrip by apply rstrip_starts_clean, lstrip_starts_clean.
  apply rstrip_rstrip.
Qed.

Lemma length_remove_dups_NoDup (l : list string) :
  length (remove_dups l) = length l ↔ NoDup l.
Proof.
  assert (Hle : ∀ k : list string, length (remove_dups k) ≤ length k).
  { induction k as [|x k IH]; simpl; [done|]. case_decide; simpl; lia. }
  induction l as [|x l IH]; simpl; [split; [constructor|done]|].
  rewrite NoDup_cons. case_decide as Hx; simpl.
  - specialize (Hle l). split; [lia|]. by intros [? _].
  - split; [intros [= Hl]; split; [done|by apply IH]|].
    intros [_ Hl%IH]. by rewrite Hl.
Qed.



Lemma run_children_spec os :
  match run_children os with
  | Ok children =>
      children = (fun o => mkOptionData (strip (od_text o)) (od_order o)) <$> os
  | Raise e => ∃ msg, e = SerializerValidationError msg
  end.
Proof.
  induction os as [|o os IH]; simpl; [done|].
  unfold PollOptionSerializer_run, validate_text.
  case_bool_decide; simpl; [by eexists|].
  destruct (run_children os) as [children|e]; simpl; [by subst|done].
Qed.





(** ** Poll creation with explicit display orders *)

(** An option that carries its own display order stops the creation of the
    options with a [TypeError]. *)
Lemma create_options_explicit_order db now poll i options_data :
  Exists (fun o => is_Some (od_order o)) options_data →
  ∃ msg, create_options db now poll i options_data = Raise (TypeError msg).
Proof.
  intros Hex. revert db i.
  induction options_data as [|o os IH]; intros db i; [by apply Exists_nil in Hex|].
  simpl. unfold create_option.
  destruct (od_order o) as [k|] eqn:Hk; simpl; [by eexists|].
  apply IH. apply Exists_cons in Hex as [[? Hsome]|]; [|done].
  by rewrite Hk in Hsome.
Qed.

Lemma createPoll_explicit_order db now owner data validated_data :
  PollCreateSerializer_is_valid now data = Ok validated_data →
  Exists (fun o => is_Some (od_order o)) (pd_options validated_data) →
  ∃ msg, createPoll db now owner data = Raise (TypeError msg).
Proof.
  intros Hvalid Hex. unfold createPoll, PollCreateSerializer_create.
  rewrite Hvalid. simpl.
  edestruct create_options_explicit_order as [msg ->]; [exact Hex|].
  by eexists.
Qed.

(** C8. The request of the repository's own test [test_create_poll], whose
    options carry a display order, passes validation and then raises
    [TypeError], which is no typed rejection; the same request without the
    display orders creates the poll. *)
Theorem createPoll_test_request_raises_TypeError :
  is_ok (PollCreateSerializer_is_valid 5 Example.test_create_poll) = true ∧
  createPoll Example.no_polls 5 1 Example.test_create_poll
    = Raise (TypeError "got multiple values for keyword argument 'order'") ∧
  typed_rejection (TypeError "got multiple values for keyword argument 'order'")
    = false ∧
  is_ok (createPoll Example.no_polls 5 1 Example.create_without_order) = true.
Proof. by vm_compute. Qed.

(** ** The cache *)

Lemma delete_many_deletes_exactly {V} keys (cache : gmap string V) :
  deletes_exactly keys cache (delete_many keys cache).
Proof.
  intros k. induction keys as [|x keys IH]; simpl; [done|].
  rewrite lookup_delete. destruct (decide (x = k)) as [->|Hne].
  - rewrite bool_decide_eq_true_2; [done|left].
  - rewrite IH.
    rewrite (bool_decide_ext (k ∈ x :: keys) (k ∈ keys)); [done|].
    rewrite elem_of_cons. split; [intros [?|?]; [congruence|done] | by right].
Qed.

(** C9. The cache loses, at a vote inserted for poll P, the entries
    poll_results_P, poll_stats and top_polls; at a poll saved, the entries
    poll_list, active_polls and poll_stats; before a poll P is deleted, the
    entries poll_results_P, poll_list, active_polls, poll_stats and
    top_polls. Every other entry stays, and no other signal changes the
    cache. *)
Theorem cache_invalidated_at_three_triggers {V} db (cache : gmap string V) v o p :
  get_option db (Vote.option v) = Some o →
  get_poll db (PollOption.poll o) = Some p →
  (∃ cache', send db (post_save (AVote v) true) cache = Ok cache' ∧
     deletes_exactly
       ["poll_results_" +:+ pretty (Poll.id p); "poll_stats"; "top_polls"]
       cache cache') ∧
  (∀ q created,
     ∃ cache', send db (post_save (APoll q) created) cache = Ok cache' ∧
       deletes_exactly ["poll_list"; "active_polls"; "poll_stats"] cache cache') ∧
  (∀ q,
     ∃ cache', send db (pre_delete (APoll q)) cache = Ok cache' ∧
       deletes_exactly
         ["poll_results_" +:+ pretty (Poll.id q); "poll_list"; "active_polls";
          "poll_stats"; "top_polls"]
         cache cache') ∧
  (∀ s, is_trigger s = false → send db s cache = Ok cache).
Proof.
  intros Ho Hp. split; [|split; [|split]].
  - exists (delete_many (vote_cache_keys (Poll.id p)) cache). split.
    + simpl. unfold invalidate_poll_cache. rewrite Ho. simpl. by rewrite Hp.
    + apply delete_many_deletes_exactly.
  - intros q created. exists (delete_many poll_list_cache_keys cache).
    split; [done|apply delete_many_deletes_exactly].
  - intros q. exists (delete_many (poll_cleanup_cache_keys (Poll.id q)) cache).
    split; [done|apply delete_many_deletes_exactly].
  - intros s Hs. destruct s as [i|i created|i|i]; try done;
      destruct i; try done. by destruct created.
Qed.

Lemma cache_invalidated_at_three_triggers_witness :
  ∃ cache',
    send Example.two_to_one (post_save (AVote (Example.stored 3 2 "192.168.1.3")) true)
         (<["poll_results_1" := 1]> (<["poll_results_2" := 2]> ∅)) = Ok cache' ∧
    deletes_exactly ["poll_results_" +:+ pretty 1; "poll_stats"; "top_polls"]
      (<["poll_results_1" := 1]> (<["poll_results_2" := 2]> ∅)) cache'.
Proof.
  apply (cache_invalidated_at_three_triggers Example.two_to_one
           (<["poll_results_1" := 1]> (<["poll_results_2" := 2]> ∅))
           (Example.stored 3 2 "192.168.1.3") Example.option_B Example.poll);
    reflexivity.
Defined.

(** ** What the model layer checks *)



Lemma Vote_clean_no_duplicate db v o p :
  get_option db (Vote.option v) = Some o →
  get_poll db (PollOption.poll o) = Some p →
  no_duplicate db (Poll.id p) v →
  Vote_clean db v = Ok tt.
Proof.
  intros Ho Hp Hno. unfold Vote_clean. rewrite Ho. simpl. rewrite Hp. simpl.
  destruct (Poll.allow_multiple_votes p); [done|]. simpl.
  assert (Huser : match Vote.user v with
                  | Some u => exists_ (exclude_pk (Vote.pk v)
                                (filter_user u (votes_of_poll db (Poll.id p))))
                  | None => false
                  end = false).
  { destruct (Vote.user v) as [u|] eqn:Hu; [|done].
    apply exists_false_intro. intros w Hw.
    apply list_elem_of_filter in Hw as [Hpk Hw].
    apply list_elem_of_filter in Hw as [Hwu Hw].
    apply list_elem_of_filter in Hw as [Hwp Hw].
    destruct (Hno w Hw Hwp Hpk) as [Hdiff _]. by apply (Hdiff u). }
  rewrite Huser. rewrite exists_false_intro; [done|]. intros w Hw.
  apply list_elem_of_filter in Hw as [Hpk Hw].
  apply list_elem_of_filter in Hw as [Hwi Hw].
  apply list_elem_of_filter in Hw as [Hwp Hw].
  by destruct (Hno w Hw Hwp Hpk) as [_ Hdiff].
Qed.



(** * Further properties *)

(** ** Expiry *)


(** ** The address of the client *)

Lemma before_comma_split s :
  has_char "," (before_comma s) = false ∧
  (s = before_comma s ∨ ∃ rest, s = before_comma s +:+ String "," rest).
Proof.
  induction s as [|c s [IHno IHsplit]]; simpl; [by split; [|left]|].
  case_bool_decide as Hc; simpl.
  - subst. split; [done|]. right. by exists s.
  - split.
    + rewrite IHno. by rewrite bool_decide_eq_false_2.
    + destruct IHsplit as [Hs | [rest Hs]].
      * left. by f_equal.
      * right. exists rest.
        change (String c s = String c (before_comma s +:+ String "," rest)).
        by rewrite <-Hs.
Qed.

(** X2. [get_client_ip] answers [REMOTE_ADDR] when the header
    X-Forwarded-For is absent or empty, whatever the peer address is
    otherwise; with a header, it answers the part of the header before its
    first comma, which holds no comma, and ignores [REMOTE_ADDR]. *)
Theorem get_client_ip_first_forwarded request :
  match HTTP_X_FORWARDED_FOR request with
  | None => get_client_ip request = REMOTE_ADDR request
  | Some x =>
      if bool_decide (x = "") then get_client_ip request = REMOTE_ADDR request
      else has_char "," (get_client_ip request) = false ∧
           (x = get_client_ip request ∨
            ∃ rest, x = get_client_ip request +:+ String "," rest)
  end.
Proof.
  unfold get_client_ip. destruct (HTTP_X_FORWARDED_FOR request) as [x|]; [|done].
  case_bool_decide; [done|]. apply before_comma_split.
Qed.

(** ** What [castVote] answers and stores *)

(** What the serializer accepted, [Vote.clean] accepts: its two queries are
    those of [validate] with one more filter. *)
Lemma Vote_clean_after_is_valid db now request data o :
  VoteSerializer_is_valid db now (Some request) data = Ok o →
  Vote_clean db (new_vote now request o) = Ok tt.
Proof.
  intros Hvalid.
  pose proof (VoteSerializer_is_valid_Ok _ _ _ _ _ Hvalid) as (Ho & p & Hp & Hact & Hexp).
  revert Hvalid.
  unfold VoteSerializer_is_valid, option_to_internal_value, validate_option,
    validate, Vote_clean.
  rewrite Ho. simpl. rewrite Hp. simpl. rewrite Hact, Hexp. simpl.
  rewrite Hp. simpl.
  rewrite (get_option_id _ _ _ Ho), Ho. simpl. rewrite Hp. simpl.
  destruct (Poll.allow_multiple_votes p); [done|]. simpl.
  destruct (request_user request) as [u|].
  - destruct (filter_user u _) as [|w ws]; [|done]. simpl.
    by destruct (filter_ip _ _) as [|w ws].
  - by destruct (filter_ip _ _) as [|w ws].
Qed.

(** The row that [castVote] stores for a request. *)
Lemma castVote_outcome valid_ip db now request data :
  match VoteSerializer_is_valid db now (Some request) data with
  | Raise e => castVote valid_ip db now request data = Raise e
  | Ok o =>
      let row := Vote.mk (Some (fresh_pk (votes db))) (request_user request) data
                   (get_client_ip request) (default "" (HTTP_USER_AGENT request))
                   now in
      castVote valid_ip db now request data
      = if valid_ip (get_client_ip request)
        then Ok (row, with_votes (votes db ++ [row]) db)
        else Raise (DjangoValidationError "Enter a valid IPv4 or IPv6 address.")
  end.
Proof.
  unfold castVote, VoteSerializer_create, Vote_save, Vote_full_clean, Vote_clean_fields.
  destruct (VoteSerializer_is_valid db now (Some request) data) as [o|e] eqn:Hvalid;
    [|done].
  simpl. destruct (valid_ip (get_client_ip request)); [|done]. simpl.
  rewrite (Vote_clean_after_is_valid _ _ _ _ _ Hvalid). simpl.
  apply VoteSerializer_is_valid_Ok in Hvalid as [Ho _].
  unfold Vote.with_pk. simpl. by rewrite (get_option_id _ _ _ Ho).
Qed.



(** X4. A request that the serializer accepts but whose client address is
    malformed (the address comes from a header of the client) is not
    answered with a typed rejection: the save raises the validation error
    of the model layer, which the view does not handle. *)
Theorem castVote_malformed_address_escapes valid_ip db now request data o :
  VoteSerializer_is_valid db now (Some request) data = Ok o →
  valid_ip (get_client_ip request) = false →
  castVote valid_ip db now request data
    = Raise (DjangoValidationError "Enter a valid IPv4 or IPv6 address.") ∧
  typed_rejection (DjangoValidationError "Enter a valid IPv4 or IPv6 address.") = false.
Proof.
  intros Hvalid Hip. split; [|done].
  unfold castVote, VoteSerializer_create, Vote_save, Vote_full_clean, Vote_clean_fields.
  rewrite Hvalid. simpl. by rewrite Hip.
Qed.

Lemma castVote_malformed_address_escapes_witness :
  castVote Example.ipv4 Example.empty_store 5
    (mkRequest None (Some "unknown, 10.0.0.1") "10.0.0.1" None) 1
    = Raise (DjangoValidationError "Enter a valid IPv4 or IPv6 address.") ∧
  typed_rejection (DjangoValidationError "Enter a valid IPv4 or IPv6 address.") = false.
Proof.
  apply (castVote_malformed_address_escapes Example.ipv4 Example.empty_store 5
           (mkRequest None (Some "unknown, 10.0.0.1") "10.0.0.1" None) 1
           Example.option_A); reflexivity.
Defined.

Lemma castVote_Ok_store valid_ip db now request data row db1 :
  castVote valid_ip db now request data = Ok (row, db1) →
  Vote.option row = data ∧ db1 = with_votes (votes db ++ [row]) db.
Proof.
  intros Hcast.
  pose proof (castVote_outcome valid_ip db now request data) as Hout.
  destruct (VoteSerializer_is_valid db now (Some request) data); [|congruence].
  simpl in Hout. destruct (valid_ip (get_client_ip request)); [|congruence].
  rewrite Hcast in Hout. by simplify_eq.
Qed.

(** X5. An accepted vote adds one to the count of its option and to the
    number of votes of the poll of that option, and changes no other count
    and no other poll's number of votes. *)
Theorem castVote_counts_one_vote valid_ip db now request data row db1 o :
  castVote valid_ip db now request data = Ok (row, db1) →
  get_option db data = Some o →
  (∀ oid, count_votes db1 oid
          = count_votes db oid + (if decide (data = oid) then 1 else 0)) ∧
  (∀ q, Poll_total_votes db1 q
        = Poll_total_votes db q
          + (if decide (PollOption.poll o = Poll.id q) then 1 else 0)).
Proof.
  intros [<- ->]%castVote_Ok_store Ho. split.
  - intros oid. unfold count_votes. simpl.
    rewrite filter_app, length_app, filter_cons, filter_nil.
    by destruct (decide (Vote.option row = oid)).
  - intros q. unfold Poll_total_votes, votes_of_poll, vote_poll, get_option in *.
    simpl. rewrite filter_app, length_app, filter_cons, filter_nil. cbv beta.
    rewrite Ho. simpl.
    destruct (decide (PollOption.poll o = Poll.id q)) as [Heq|Hne].
    + by rewrite decide_True by congruence.
    + by rewrite decide_False by congruence.
Qed.

Lemma castVote_counts_one_vote_witness :
  (∀ oid, count_votes
            (with_votes (votes Example.two_to_one
                         ++ [Vote.mk (Some 4) None 2 "192.168.1.4" "" 5])
               Example.two_to_one) oid
          = count_votes Example.two_to_one oid + (if decide (2 = oid) then 1 else 0)) ∧
  (∀ q, Poll_total_votes
          (with_votes (votes Example.two_to_one
                       ++ [Vote.mk (Some 4) None 2 "192.168.1.4" "" 5])
             Example.two_to_one) q
        = Poll_total_votes Example.two_to_one q
          + (if decide (PollOption.poll Example.option_B = Poll.id q) then 1 else 0)).
Proof.
  apply (castVote_counts_one_vote Example.ipv4 Example.two_to_one 5
           (Example.anonymous "192.168.1.4") 2
           (Vote.mk (Some 4) None 2 "192.168.1.4" "" 5)); reflexivity.
Defined.

(** ** The store after [Vote.save] *)

Lemma Model_save_stores rows v row rows' :
  Model_save rows v = (row, rows') → row ∈ rows'.
Proof.
  unfold Model_save. destruct (Vote.pk v) as [k|] eqn:Hk.
  - destruct (exists_ _) eqn:Hex; intros; simplify_eq.
    + destruct (filter _ rows) as [|w ws] eqn:Hrows; [done|].
      assert (Hw : w ∈ filter (fun w => Vote.pk w = Some k) rows)
        by (rewrite Hrows; left).
      apply list_elem_of_filter in Hw as [Hwk Hw].
      apply list_elem_of_fmap. exists w. by rewrite bool_decide_eq_true_2.
    + apply elem_of_app. right. left.
  - intros; simplify_eq. apply elem_of_app. right. left.
Qed.

Lemma Model_save_keeps rows v row rows' w :
  Model_save rows v = (row, rows') → w ∈ rows → Vote.pk w ≠ Vote.pk row → w ∈ rows'.
Proof.
  unfold Model_save. destruct (Vote.pk v) as [k|] eqn:Hk.
  - destruct (exists_ _); intros; simplify_eq.
    + apply list_elem_of_fmap. exists w. rewrite bool_decide_eq_false_2; [done|].
      congruence.
    + apply elem_of_app. by left.
  - intros; simplify_eq. apply elem_of_app. by left.
Qed.

Lemma Model_save_length rows v row rows' :
  Model_save rows v = (row, rows') →
  length rows'
  = length rows + (if bool_decide (Vote.pk row ∈ Vote.pk <$> rows) then 0 else 1).
Proof.
  unfold Model_save. destruct (Vote.pk v) as [k|] eqn:Hk.
  - destruct (exists_ _) eqn:Hex; intros; simplify_eq.
    + rewrite length_fmap, bool_decide_eq_true_2; [lia|].
      destruct (filter _ rows) as [|w ws] eqn:Hrows; [done|].
      assert (Hw : w ∈ filter (fun w => Vote.pk w = Some k) rows)
        by (rewrite Hrows; left).
      apply list_elem_of_filter in Hw as [Hwk Hw].
      apply list_elem_of_fmap. exists w. by rewrite Hwk, Hk.
    + rewrite length_app, bool_decide_eq_false_2; [done|].
      intros (w & Hwk & Hw)%list_elem_of_fmap. apply exists_false in Hex.
      eapply filter_nil_not_elem_of; [exact Hex| |exact Hw]. simpl. congruence.
  - intros; simplify_eq. rewrite length_app, bool_decide_eq_false_2; [done|].
    intros (w & Hwk & Hw)%list_elem_of_fmap. simpl in Hwk.
    by eapply fresh_pk_new.
Qed.

(** X6. After a successful [Vote.save] on a table with distinct keys, the
    table holds the saved row and exactly the rows that were there under
    another key: a vote with the key of a stored row takes the place of
    that row and the table keeps its length, any other vote makes the
    table one row longer. The saved row has a key; polls and options are
    untouched. *)
Theorem Vote_save_replaces_or_adds valid_ip db v row db' :
  keyed (votes db) →
  Vote_save valid_ip db v = Ok (row, db') →
  (∀ w, w ∈ votes db' ↔ w = row ∨ (w ∈ votes db ∧ Vote.pk w ≠ Vote.pk row)) ∧
  is_Some (Vote.pk row) ∧
  length (votes db')
  = length (votes db)
    + (if bool_decide (Vote.pk row ∈ Vote.pk <$> votes db) then 0 else 1) ∧
  polls db' = polls db ∧ options db' = options db.
Proof.
  intros Hkeyed (_ & _ & rows & Hsave & ->)%Vote_save_Ok. simpl.
  destruct (Model_save_rows _ _ _ _ Hkeyed Hsave) as (_ & _ & _ & [Hsome _] & Hrows).
  split; [|split; [|split; [|done]]].
  - intros w. split.
    + intros [-> | (? & ? & _)]%Hrows; [by left | by right].
    + intros [-> | [Hw Hne]].
      * exact (Model_save_stores _ _ _ _ Hsave).
      * exact (Model_save_keeps _ _ _ _ _ Hsave Hw Hne).
  - eapply Forall_forall in Hsome; [done|]. exact (Model_save_stores _ _ _ _ Hsave).
  - exact (Model_save_length _ _ _ _ Hsave).
Qed.

Lemma Vote_save_replaces_or_adds_witness :
  length (votes (with_votes
                   [Example.stored 1 1 "192.168.1.1";
                    Vote.mk (Some 2) None 2 "192.168.1.2" "" 9;
                    Example.stored 3 2 "192.168.1.3"]
                   Example.two_to_one))
  = length (votes Example.two_to_one)
    + (if bool_decide (Some 2 ∈ Vote.pk <$> votes Example.two_to_one)
       then 0 else 1).
Proof.
  apply (Vote_save_replaces_or_adds Example.ipv4 Example.two_to_one
           (Vote.mk (Some 2) None 2 "192.168.1.2" "" 9)
           (Vote.mk (Some 2) None 2 "192.168.1.2" "" 9)).
  - split; by apply (bool_decide_unpack _).
  - reflexivity.
Defined.

Lemma NoDup_fmap_eq {A B} (f : A → B) (l : list A) x y :
  NoDup (f <$> l) → x ∈ l → y ∈ l → f x = f y → x = y.
Proof.
  induction l as [|a l IH]; [by intros _ ?%elem_of_nil|].
  rewrite fmap_cons, NoDup_cons. intros [Hnew Hnodup].
  intros [->|Hx]%elem_of_cons [->|Hy]%elem_of_cons Heq; [done| | |by apply IH].
  - destruct Hnew. rewrite Heq. by apply list_elem_of_fmap_2.
  - destruct Hnew. rewrite <-Heq. by apply list_elem_of_fmap_2.
Qed.

Lemma Vote_clean_Ok_inv db v :
  Vote_clean db v = Ok tt →
  ∃ o p, get_option db (Vote.option v) = Some o ∧
         get_poll db (PollOption.poll o) = Some p.
Proof.
  unfold Vote_clean.
  destruct (get_option db (Vote.option v)) as [o|] eqn:Ho; [|done]. simpl.
  destruct (get_poll db (PollOption.poll o)) as [p|] eqn:Hp; [|done].
  intros _. exists o, p. by rewrite Hp.
Qed.

(** X7. Saving again the row that [Vote.save] has just stored is accepted
    and changes nothing: the row is no duplicate of itself, and the write
    puts it in its own place. *)
Theorem Vote_save_again_changes_nothing valid_ip db v row db' :
  keyed (votes db) →
  Vote_save valid_ip db v = Ok (row, db') →
  Vote_save valid_ip db' row = Ok (row, db').
Proof.
  intros Hkeyed Hsave.
  pose proof (Vote_save_Ok _ _ _ _ _ Hsave) as (Hip & Hclean & rows & Hmodel & ->).
  destruct (Model_save_rows _ _ _ _ Hkeyed Hmodel)
    as (Huser & Hopt & Hrowip & [Hsome Hnodup] & Hrows).
  pose proof (Model_save_stores _ _ _ _ Hmodel) as Hin.
  destruct (Vote_clean_Ok_inv _ _ Hclean) as (o & p & Ho & Hp).
  assert (Hclean' : Vote_clean (with_votes rows db) row = Ok tt).
  { destruct (Poll.allow_multiple_votes p) eqn:Hallow.
    - unfold Vote_clean.
      change (get_option (with_votes rows db)) with (get_option db).
      change (get_poll (with_votes rows db)) with (get_poll db).
      rewrite Hopt, Ho. simpl. rewrite Hp. simpl. by rewrite Hallow.
    - apply (Vote_clean_no_duplicate (with_votes rows db) row o p).
      + change (get_option (with_votes rows db)) with (get_option db).
        by rewrite Hopt.
      + done.
      + intros w Hw Hwp Hpk. simpl in Hw.
        apply Hrows in Hw as [-> | (Hw & _ & Hwv)]; [done|].
        rewrite Huser, Hrowip.
        apply (Vote_clean_Ok db v (Poll.id p)); try done.
        * exists p. split; [|done]. by rewrite (get_poll_id _ _ _ Hp).
        * unfold vote_poll. rewrite Ho. simpl. by rewrite (get_poll_id _ _ _ Hp). }
  unfold Vote_save, Vote_full_clean, Vote_clean_fields.
  rewrite Hrowip, Hip. simpl. rewrite Hclean'. simpl.
  assert (Hk : is_Some (Vote.pk row)) by (by eapply Forall_forall in Hsome).
  destruct Hk as [k Hk]. unfold Model_save. rewrite Hk.
  rewrite (exists_true _ row) by (apply list_elem_of_filter; by split).
  do 2 f_equal. unfold with_votes. simpl. f_equal.
  rewrite <-(list_fmap_id rows) at 2. apply list_fmap_ext.
  intros i w Hw. simpl. case_bool_decide as Hwk; [|done].
  symmetry. apply (NoDup_fmap_eq Vote.pk rows); [done| |done|congruence].
  by eapply list_elem_of_lookup_2.
Qed.

Lemma Vote_save_again_changes_nothing_witness :
  Vote_save Example.ipv4
    (with_votes (votes Example.two_to_one
                 ++ [Vote.mk (Some 4) (Some 7) 2 "192.168.1.4" "" 5])
       Example.two_to_one)
    (Vote.mk (Some 4) (Some 7) 2 "192.168.1.4" "" 5)
  = Ok (Vote.mk (Some 4) (Some 7) 2 "192.168.1.4" "" 5,
        with_votes (votes Example.two_to_one
                    ++ [Vote.mk (Some 4) (Some 7) 2 "192.168.1.4" "" 5])
          Example.two_to_one).
Proof.
  apply (Vote_save_again_changes_nothing Example.ipv4 Example.two_to_one
           (Vote.mk None (Some 7) 2 "192.168.1.4" "" 5)).
  - split; by apply (bool_decide_unpack _).
  - reflexivity.
Defined.

(** ** The percentages of a result *)

Lemma round_half_even_bounds n d m :
  (0 < d)%Z → (0 <= n <= m * d)%Z → (0 <= round_half_even n d <= m)%Z.
Proof.
  intros Hd Hn. pose proof (round_half_even_nearest n d Hd). nia.
Qed.

Lemma round_half_even_mono n1 n2 d :
  (0 < d)%Z → (n1 <= n2)%Z → (round_half_even n1 d <= round_half_even n2 d)%Z.
Proof.
  intros Hd Hn.
  destruct (decide (n1 = n2)) as [->|Hne]; [done|].
  pose proof (round_half_even_nearest n1 d Hd).
  pose proof (round_half_even_nearest n2 d Hd). nia.
Qed.

Lemma round_half_even_exact q d : (0 < d)%Z → round_half_even (q * d) d = q.
Proof.
  intros Hd. unfold round_half_even.
  rewrite Z.div_mul, Z.mod_mul by lia.
  rewrite bool_decide_eq_true_2; [done|lia].
Qed.

Lemma percentage_of_mono c1 c2 t :
  c1 ≤ c2 → (percentage_of c1 t <= percentage_of c2 t)%Z.
Proof.
  intros Hc. unfold percentage_of. case_bool_decide; [|done].
  apply round_half_even_mono; lia.
Qed.

Lemma sum_list_fmap_with {A} (f : A → nat) (l : list A) :
  sum_list (f <$> l) = sum_list_with f l.
Proof. induction l as [|x l IH]; csimpl; [done|]. by rewrite IH. Qed.

(** X8. Every percentage of a result lies between 0 and 100; an option
    that holds all the votes gets exactly 100 and an option without votes
    gets 0; and, like the counts, the percentages never increase down the
    list. *)
Theorem percentages_between_0_and_100 db now self :
  let r := get_results db now self in
  (∀ row, row ∈ Results.options r →
     (0 <= ResultRow.percentage row <= 10000)%Z ∧
     (ResultRow.vote_count row = 0 → ResultRow.percentage row = 0%Z) ∧
     (0 < Results.total_votes r →
      ResultRow.vote_count row = Results.total_votes r →
      ResultRow.percentage row = 10000%Z)) ∧
  (∀ i j a b, i < j → Results.options r !! i = Some a →
     Results.options r !! j = Some b →
     (ResultRow.percentage b <= ResultRow.percentage a)%Z).
Proof.
  intros r. split.
  - intros row. unfold r. rewrite get_results_options.
    set (t := Results.total_votes _).
    intros (vr & -> & Hvr)%list_elem_of_fmap. simpl.
    assert (Hle : ValuesRow.vote_count vr ≤ t).
    { apply (sum_list_with_in _ ValuesRow.vote_count) in Hvr.
      unfold t, get_results. simpl. by rewrite sum_list_fmap_with. }
    unfold percentage_of. split; [|split].
    + case_bool_decide; [|done]. apply round_half_even_bounds; lia.
    + intros ->. case_bool_decide; [|done].
      change (Z.of_nat 0 * 10000)%Z with (0 * Z.of_nat t)%Z.
      apply round_half_even_exact. lia.
    + intros Ht ->. rewrite bool_decide_eq_true_2 by done.
      rewrite Z.mul_comm. apply round_half_even_exact. lia.
  - intros i j a b Hij Ha Hb.
    pose proof (get_results_descending db now self i j a b Hij Ha Hb) as Hcount.
    unfold r in *. rewrite get_results_options in Ha, Hb.
    rewrite list_lookup_fmap in Ha, Hb.
    destruct (_ !! i) as [a'|]; [|done]. destruct (_ !! j) as [b'|]; [|done].
    simplify_eq/=. by apply percentage_of_mono.
Qed.

(** ** Titles, option texts and option lists *)

Lemma strip_clean s :
  starts_clean (list_ascii_of_string (strip s)) ∧
  ends_clean (list_ascii_of_string (strip s)).
Proof.
  unfold strip, ends_clean. rewrite list_ascii_of_string_of_list_ascii. split.
  - apply rstrip_starts_clean, lstrip_starts_clean.
  - unfold rstrip. rewrite rev_involutive. apply lstrip_starts_clean.
Qed.

Lemma validate_text_Ok value v :
  validate_text value = Ok v ↔ v = strip value ∧ 2 ≤ String.length (strip value).
Proof.
  unfold validate_text. case_bool_decide; split.
  - done.
  - intros [_ ?]. lia.
  - intros [= <-]. split; [done|lia].
  - by intros [-> _].
Qed.

Lemma validate_title_Ok value v :
  validate_title value = Ok v ↔ v = strip value ∧ 5 ≤ String.length (strip value).
Proof.
  unfold validate_title. case_bool_decide; split.
  - done.
  - intros [_ ?]. lia.
  - intros [= <-]. split; [done|lia].
  - by intros [-> _].
Qed.

(** X9. A title or an option text that passes its check is returned
    trimmed: it neither starts nor ends with white space, it has at least
    5 (title) or 2 (option text) characters, and checking it again returns
    it unchanged. *)
Theorem validated_text_is_trimmed value v :
  validate_text value = Ok v ∨ validate_title value = Ok v →
  v = strip value ∧
  starts_clean (list_ascii_of_string v) ∧ ends_clean (list_ascii_of_string v) ∧
  2 ≤ String.length v ∧
  (validate_text value = Ok v → validate_text v = Ok v) ∧
  (validate_title value = Ok v →
   5 ≤ String.length v ∧ validate_title v = Ok v).
Proof.
  intros Hv.
  assert (Heq : v = strip value ∧ 2 ≤ String.length (strip value)).
  { destruct Hv as [[-> ?]%validate_text_Ok | [-> ?]%validate_title_Ok];
      split; (done || lia). }
  destruct Heq as [-> Hlen].
  split; [done|]. split; [apply strip_clean|]. split; [apply strip_clean|].
  split; [done|]. split.
  - intros _. apply validate_text_Ok. by rewrite strip_strip.
  - intros [_ ?]%validate_title_Ok. split; [done|].
    apply validate_title_Ok. by rewrite strip_strip.
Qed.

Lemma validated_text_is_trimmed_witness :
  "Option 1" = strip "  Option 1 " ∧
  starts_clean (list_ascii_of_string "Option 1") ∧
  ends_clean (list_ascii_of_string "Option 1") ∧
  2 ≤ String.length "Option 1" ∧
  (validate_text "  Option 1 " = Ok "Option 1" → validate_text "Option 1" = Ok "Option 1") ∧
  (validate_title "  Option 1 " = Ok "Option 1" →
   5 ≤ String.length "Option 1" ∧ validate_title "Option 1" = Ok "Option 1").
Proof.
  apply (validated_text_is_trimmed "  Option 1 " "Option 1"). left. reflexivity.
Defined.

Lemma validate_options_is_ok value :
  is_ok (validate_options value)
  = bool_decide (2 ≤ length value ≤ 10 ∧ NoDup (normalized <$> value)).
Proof.
  unfold validate_options, distinct.
  change (fun option => lower (strip (od_text option))) with normalized.
  case_bool_decide as H2; [symmetry; apply bool_decide_eq_false; lia|].
  case_bool_decide as H10; [symmetry; apply bool_decide_eq_false; lia|].
  case_bool_decide as Hdup; simpl; symmetry.
  - apply bool_decide_eq_false. intros [_ Hnodup%length_remove_dups_NoDup].
    by rewrite Hnodup in Hdup.
  - apply bool_decide_eq_true. split; [lia|].
    by apply length_remove_dups_NoDup.
Qed.

(** X10. Whether an option list passes [validate_options] does not depend
    on the order of the options, nor on the case or the surrounding white
    space of their texts: two lists whose trimmed, lower-case texts are the
    same up to order are both accepted or both rejected. *)
Theorem validate_options_ignores_order_and_case value value' :
  normalized <$> value ≡ₚ normalized <$> value' →
  is_ok (validate_options value) = is_ok (validate_options value').
Proof.
  intros Hperm. rewrite !validate_options_is_ok.
  pose proof (Permutation_length Hperm) as Hlen. rewrite !length_fmap in Hlen.
  apply bool_decide_ext. by rewrite Hlen, Hperm.
Qed.

Lemma validate_options_ignores_order_and_case_witness :
  is_ok (validate_options [mkOptionData "Yes" None; mkOptionData "No" (Some 2)])
  = is_ok (validate_options [mkOptionData " no " None; mkOptionData "YES" None]).
Proof.
  apply validate_options_ignores_order_and_case. apply perm_swap.
Defined.

(** ** A poll that has just been created *)

Lemma fresh_id_gt ids x : x ∈ ids → x < fresh_id ids.
Proof. intros Hx%max_list_elem_of_le. unfold fresh_id. lia. Qed.

(** The rows that [create_options] adds when no option carries a display
    order of its own. *)
Lemma create_options_spec now poll options_data :
  Forall (fun o => od_order o = None) options_data →
  ∀ db i, ∃ rows,
    create_options db now poll i options_data
      = Ok (with_options (options db ++ rows) db) ∧
    PollOption.text <$> rows = od_text <$> options_data ∧
    PollOption.order <$> rows = seq (S i) (length options_data) ∧
    Forall (fun r => PollOption.poll r = Poll.id poll
                     ∧ PollOption.created_at r = now) rows ∧
    (∀ r x, r ∈ rows → x ∈ PollOption.id <$> options db → x < PollOption.id r) ∧
    NoDup (PollOption.id <$> rows).
Proof.
  induction 1 as [|o os Ho _ IH]; intros db i.
  { exists []. simpl. rewrite app_nil_r. destruct db.
    repeat split; try done; [by intros ?? ?%elem_of_nil | constructor]. }
  simpl. unfold create_option. rewrite Ho. simpl.
  set (row := PollOption.mk _ _ _ _ _).
  destruct (IH (with_options (options db ++ [row]) db) (S i))
    as (rows & -> & Htext & Horder & Hpoll & Hnew & Hnodup).
  exists (row :: rows).
  split; [f_equal; unfold with_options; simpl; by rewrite <-app_assoc|].
  split; [csimpl; by rewrite Htext|]. split.
  { csimpl. rewrite Horder. f_equal. unfold row. simpl. lia. }
  split; [by constructor|]. split.
  - intros r x [->|Hr]%elem_of_cons Hx.
    + by apply fresh_id_gt.
    + apply (Hnew r x Hr). cbn [options with_options].
      rewrite fmap_app. apply elem_of_app. by left.
  - csimpl. apply NoDup_cons. split; [|done].
    intros (r & Hid & Hr)%list_elem_of_fmap.
    assert (PollOption.id row < PollOption.id r); [|unfold row in *; simpl in *; lia].
    apply (Hnew r _ Hr). cbn [options with_options].
    rewrite fmap_app. apply elem_of_app. right. left.
Qed.

Lemma is_valid_options now data validated_data :
  PollCreateSerializer_is_valid now data = Ok validated_data →
  pd_options validated_data
    = (fun o => mkOptionData (strip (od_text o)) (od_order o)) <$> pd_options data ∧
  pd_title validated_data = strip (pd_title data) ∧
  pd_description validated_data = pd_description data ∧
  pd_expires_at validated_data = pd_expires_at data ∧
  pd_is_active validated_data = pd_is_active data ∧
  pd_allow_multiple_votes validated_data = pd_allow_multiple_votes data ∧
  2 ≤ length (pd_options data) ≤ 10.
Proof.
  unfold PollCreateSerializer_is_valid.
  destruct (validate_title (pd_title data)) as [title|] eqn:Htitle; [|done]. simpl.
  apply validate_title_Ok in Htitle as [-> _].
  destruct (validate_expires_at now (pd_expires_at data)) as [e|] eqn:He; [|done].
  simpl.
  assert (e = pd_expires_at data) as ->.
  { unfold validate_expires_at in He. by repeat case_match; simplify_eq. }
  pose proof (run_children_spec (pd_options data)) as Hchildren.
  destruct (run_children (pd_options data)) as [children|]; [|done]. simpl.
  subst children.
  destruct (validate_options _) as [value|] eqn:Hvalue; [|done]. simpl.
  intros [= <-]. simpl.
  assert (Hok : is_ok (validate_options
                         ((fun o => mkOptionData (strip (od_text o)) (od_order o))
                            <$> pd_options data)) = true) by (by rewrite Hvalue).
  rewrite validate_options_is_ok in Hok.
  apply bool_decide_eq_true in Hok as [Hlen _]. rewrite length_fmap in Hlen.
  unfold validate_options in Hvalue. repeat case_bool_decide; by simplify_eq.
Qed.

Lemma find_app_last {A} (f : A → bool) (l : list A) x :
  (∀ y, y ∈ l → f y = false) → f x = true → List.find f (l ++ [x]) = Some x.
Proof.
  intros Hl Hx. induction l as [|y l IH]; simpl; [by rewrite Hx|].
  rewrite (Hl y) by left. apply IH. intros z Hz. apply Hl. by right.
Qed.

(** What [createPoll] does with a request that passes validation and
    carries no display order. *)
Lemma createPoll_creates db now owner data validated_data :
  PollCreateSerializer_is_valid now data = Ok validated_data →
  Forall (fun o => od_order o = None) (pd_options data) →
  ∃ poll rows,
    createPoll db now owner data
      = Ok (poll, mkDB (polls db ++ [poll]) (options db ++ rows) (votes db)) ∧
    poll = Poll.mk (fresh_id (Poll.id <$> polls db)) (strip (pd_title data))
             (pd_description data) owner now (pd_expires_at data)
             (pd_is_active data) (pd_allow_multiple_votes data) ∧
    get_poll (mkDB (polls db ++ [poll]) (options db ++ rows) (votes db)) (Poll.id poll)
      = Some poll ∧
    PollOption.text <$> rows = (fun o => strip (od_text o)) <$> pd_options data ∧
    PollOption.order <$> rows = seq 1 (length (pd_options data)) ∧
    Forall (fun r => PollOption.poll r = Poll.id poll
                     ∧ PollOption.created_at r = now) rows ∧
    (∀ r x, r ∈ rows → x ∈ PollOption.id <$> options db → x < PollOption.id r) ∧
    NoDup (PollOption.id <$> rows).
Proof.
  intros Hvalid Horder.
  destruct (is_valid_options _ _ _ Hvalid) as (Hopts & Htitle & Hdesc & Hexp & Hact & Hallow & _).
  unfold createPoll, PollCreateSerializer_create. rewrite Hvalid. simpl.
  rewrite Htitle, Hdesc, Hexp, Hact, Hallow.
  set (poll := Poll.mk _ _ _ _ _ _ _ _).
  destruct (create_options_spec now poll (pd_options validated_data)) with
    (db := with_polls (polls db ++ [poll]) db) (i := 0)
    as (rows & -> & Htext & Hord & Hpoll & Hnew & Hnodup).
  { rewrite Hopts. apply Forall_fmap. eapply Forall_impl; [exact Horder|]. done. }
  exists poll, rows. simpl. split; [done|]. split; [done|]. split.
  { unfold get_poll. simpl. apply find_app_last.
    - intros q Hq. apply bool_decide_eq_false. simpl.
      assert (Poll.id q < fresh_id (Poll.id <$> polls db)); [|lia].
      by apply fresh_id_gt, list_elem_of_fmap_2.
    - by apply bool_decide_eq_true. }
  rewrite Hopts in Htext, Hord. rewrite length_fmap in Hord.
  rewrite <-list_fmap_compose in Htext. done.
Qed.

(** A request that is answered with a poll passed validation, and none of
    its options carried a display order. *)
Lemma createPoll_Ok_inv db now owner data poll db' :
  createPoll db now owner data = Ok (poll, db') →
  ∃ validated_data,
    PollCreateSerializer_is_valid now data = Ok validated_data ∧
    Forall (fun o => od_order o = None) (pd_options data).
Proof.
  intros Hcreate.
  destruct (PollCreateSerializer_is_valid now data) as [vd|e] eqn:Hvalid.
  2: { unfold createPoll in Hcreate. by rewrite Hvalid in Hcreate. }
  exists vd. split; [done|].
  apply Forall_forall. intros o Ho.
  destruct (od_order o) as [k|] eqn:Hk; [exfalso|done].
  destruct (createPoll_explicit_order db now owner data vd Hvalid) as [msg Hmsg].
  - destruct (is_valid_options _ _ _ Hvalid) as (-> & _).
    apply Exists_exists. exists (mkOptionData (strip (od_text o)) (od_order o)).
    split; [|simpl; by rewrite Hk].
    by apply (list_elem_of_fmap_2
                (fun o => mkOptionData (strip (od_text o)) (od_order o))).
  - congruence.
Qed.



(** X12. The three answers of [createPoll]. A request that fails
    validation is answered with the validation error. A request that
    passes validation creates the poll exactly when none of its options
    carries a display order; when one does, the call raises [TypeError],
    which is no typed rejection. *)
Theorem createPoll_answers db now owner data :
  (∀ e, PollCreateSerializer_is_valid now data = Raise e →
        createPoll db now owner data = Raise e) ∧
  (is_ok (createPoll db now owner data) = true ↔
   is_ok (PollCreateSerializer_is_valid now data) = true ∧
   Forall (fun o => od_order o = None) (pd_options data)) ∧
  (is_ok (PollCreateSerializer_is_valid now data) = true →
   Exists (fun o => is_Some (od_order o)) (pd_options data) →
   ∃ msg, createPoll db now owner data = Raise (TypeError msg) ∧
          typed_rejection (TypeError msg) = false).
Proof.
  split; [|split].
  - intros e He. unfold createPoll. by rewrite He.
  - split.
    + destruct (createPoll db now owner data) as [[poll db']|] eqn:Hcreate; [|done].
      intros _. destruct (createPoll_Ok_inv _ _ _ _ _ _ Hcreate) as (vd & -> & Horder).
      done.
    + intros [Hvalid Horder].
      destruct (PollCreateSerializer_is_valid now data) as [vd|] eqn:Hvd; [|done].
      destruct (createPoll_creates db now owner data vd Hvd Horder)
        as (poll & rows & -> & _). done.
  - intros Hvalid Hex.
    destruct (PollCreateSerializer_is_valid now data) as [vd|] eqn:Hvd; [|done].
    destruct (createPoll_explicit_order db now owner data vd Hvd) as [msg Hmsg].
    + destruct (is_valid_options _ _ _ Hvd) as (-> & _).
      apply Exists_exists in Hex as (o & Ho & Hsome).
      apply Exists_exists. exists (mkOptionData (strip (od_text o)) (od_order o)).
      split; [|done].
      by apply (list_elem_of_fmap_2
                  (fun o => mkOptionData (strip (od_text o)) (od_order o))).
    + by exists msg.
Qed.

Lemma createPoll_answers_witness :
  ∃ msg, createPoll Example.no_polls 5 1 Example.test_create_poll
         = Raise (TypeError msg) ∧ typed_rejection (TypeError msg) = false.
Proof.
  apply (createPoll_answers Example.no_polls 5 1 Example.test_create_poll).
  - reflexivity.
  - apply Exists_cons_hd. by exists 1.
Defined.

Lemma order_by_vote_count_desc_ties rows :
  Forall (fun r => ValuesRow.vote_count r = 0) rows →
  order_by_vote_count_desc rows = rows.
Proof.
  induction 1 as [|r rows Hr Hrows IH]; simpl; [done|].
  rewrite IH. destruct Hrows as [|x rows Hx _]; simpl; [done|].
  rewrite bool_decide_eq_true_2; [done|lia].
Qed.

Lemma filter_all {A} (P : A → Prop) `{!∀ x, Decision (P x)} (l : list A) :
  Forall P l → filter P l = l.
Proof.
  induction 1 as [|x l Hx _ IH]; [done|].
  by rewrite filter_cons, decide_True, IH.
Qed.

Lemma filter_none {A} (P : A → Prop) `{!∀ x, Decision (P x)} (l : list A) :
  Forall (fun x => ¬ P x) l → filter P l = [].
Proof.
  induction 1 as [|x l Hx _ IH]; [done|].
  by rewrite filter_cons, decide_False, IH.
Qed.

(** X13. The results of a poll that has just been created, in a store
    whose options all belong to stored polls and whose votes all name
    stored options: the total is 0 and there is one row per option of the
    request, in the order of the request, each with the trimmed text, no
    vote and the percentage 0. *)
Theorem created_poll_has_empty_results db now owner data poll db' :
  Forall (fun o => PollOption.poll o ∈ Poll.id <$> polls db) (options db) →
  Forall (fun v => Vote.option v ∈ PollOption.id <$> options db) (votes db) →
  createPoll db now owner data = Ok (poll, db') →
  Results.total_votes (get_results db' now poll) = 0 ∧
  (fun r => (ResultRow.text r, ResultRow.vote_count r, ResultRow.percentage r))
    <$> Results.options (get_results db' now poll)
  = (fun o => (strip (od_text o), 0, 0%Z)) <$> pd_options data ∧
  getResults db' now (Poll.id poll) = Some (get_results db' now poll).
Proof.
  intros Hoptions Hvotes Hcreate.
  destruct (createPoll_Ok_inv _ _ _ _ _ _ Hcreate) as (vd & Hvalid & Horder).
  destruct (createPoll_creates db now owner data vd Hvalid Horder)
    as (poll' & rows & Hcreate' & Hpoll & Hget & Htext & _ & Hrows & Hnew & _).
  rewrite Hcreate in Hcreate'. injection Hcreate' as <- ->. clear Hcreate.
  assert (Hfresh : ∀ o, o ∈ options db → PollOption.poll o ≠ Poll.id poll).
  { intros o Ho Heq. eapply Forall_forall in Hoptions; [|exact Ho].
    apply fresh_id_gt in Hoptions. rewrite Heq, Hpoll in Hoptions. simpl in *. lia. }
  set (db' := mkDB _ _ _) in *.
  assert (Hpo : poll_options db' poll = rows).
  { unfold poll_options, db'. simpl. rewrite filter_app.
    rewrite filter_none, filter_all; [done| |].
    - eapply Forall_impl; [exact Hrows|]. by intros r [? _].
    - apply Forall_forall. intros o Ho. by apply Hfresh. }
  assert (Hzero : ∀ r, r ∈ rows → count_votes db' (PollOption.id r) = 0).
  { intros r Hr. unfold count_votes, db'. simpl.
    rewrite filter_none; [done|]. apply Forall_forall. intros v Hv Hid.
    eapply Forall_forall in Hvotes; [|exact Hv].
    pose proof (Hnew r _ Hr Hvotes). lia. }
  assert (Hsorted : order_by_vote_count_desc (annotate_values db' <$> rows)
                    = annotate_values db' <$> rows).
  { apply order_by_vote_count_desc_ties, Forall_fmap, Forall_forall.
    intros r Hr. simpl. by apply Hzero. }
  assert (Hcounts : ValuesRow.vote_count <$> (annotate_values db' <$> rows)
                    = (fun _ => 0) <$> rows).
  { rewrite <-list_fmap_compose. apply list_fmap_ext.
    intros i r Hr. simpl. apply Hzero. by eapply list_elem_of_lookup_2. }
  assert (Htotal : Results.total_votes (get_results db' now poll) = 0).
  { unfold get_results. simpl. rewrite Hpo, Hsorted, Hcounts.
    clear. induction rows as [|r rows IH]; csimpl; [done|]. by rewrite IH. }
  split; [done|]. split.
  - rewrite get_results_options, Htotal, Hpo, Hsorted.
    rewrite <-!list_fmap_compose.
    transitivity ((fun r => (r, 0, 0%Z)) <$> (PollOption.text <$> rows)).
    + rewrite <-list_fmap_compose. apply list_fmap_ext.
      intros i r Hr. simpl. rewrite Hzero; [done|].
      by eapply list_elem_of_lookup_2.
    + rewrite Htext, <-list_fmap_compose. done.
  - unfold getResults. by rewrite Hget.
Qed.

Lemma created_poll_has_empty_results_witness :
  Results.total_votes
    (get_results
       (mkDB (polls Example.two_to_one
              ++ [Poll.mk 2 "Test Poll" "Test Description" 3 9 None true false])
             (options Example.two_to_one
              ++ [PollOption.mk 3 2 "Option 1" 9 1; PollOption.mk 4 2 "Option 2" 9 2])
             (votes Example.two_to_one))
       9 (Poll.mk 2 "Test Poll" "Test Description" 3 9 None true false)) = 0.
Proof.
  apply (created_poll_has_empty_results Example.two_to_one 9 3
           Example.create_without_order).
  - by apply (bool_decide_unpack _).
  - by apply (bool_decide_unpack _).
  - reflexivity.
Defined.

(** ** What every interleaving keeps *)

Lemma thread_step_accounts valid_ip db now th :
  keyed (votes db) → pending_unsaved th →
  let '(th', db') := thread_step valid_ip db now th in
  keyed (votes db') ∧ pending_unsaved th' ∧
  polls db' = polls db ∧ options db' = options db ∧
  ∃ new, votes db' = votes db ++ new ∧
         length new + one_if_accepted th = one_if_accepted th'.
Proof.
  intros Hkeyed Hpending. unfold thread_step, pending_unsaved, one_if_accepted in *.
  destruct th as [request [data|v|v|outcome]]; simpl in *.
  - destruct (VoteSerializer_is_valid _ _ _ _); simpl;
      (split; [done|]; split; [done|]; split; [done|]; split; [done|]);
      exists []; by rewrite app_nil_r.
  - destruct (Vote_full_clean _ _ _) as [[]|]; simpl;
      (split; [done|]; split; [done|]; split; [done|]; split; [done|]);
      exists []; by rewrite app_nil_r.
  - destruct (Model_save (votes db) v) as [row rows] eqn:Hsave. simpl.
    destruct (Model_save_rows _ _ _ _ Hkeyed Hsave) as (_ & _ & _ & Hkeyed' & _).
    split; [done|]. split; [done|]. split; [done|]. split; [done|].
    unfold Model_save in Hsave. rewrite Hpending in Hsave. simplify_eq.
    by eexists [_].
  - split; [done|]. split; [done|]. split; [done|]. split; [done|].
    exists []. by rewrite app_nil_r.
Qed.

Lemma count_accepted_insert ths i th th' :
  ths !! i = Some th →
  count_accepted (<[i := th']> ths) + one_if_accepted th
  = count_accepted ths + one_if_accepted th'.
Proof.
  unfold count_accepted, one_if_accepted. revert i.
  induction ths as [|x ths IH]; intros [|i] Hi; simplify_eq/=.
  - destruct (accepted th), (accepted th'); simpl; lia.
  - specialize (IH i Hi). destruct (accepted x); simpl; lia.
Qed.

Lemma run_accounts valid_ip now schedule :
  ∀ db ths,
    keyed (votes db) → Forall pending_unsaved ths →
    let '(ths', db') := run valid_ip db now ths schedule in
    keyed (votes db') ∧ Forall pending_unsaved ths' ∧
    polls db' = polls db ∧ options db' = options db ∧
    length ths' = length ths ∧
    ∃ new, votes db' = votes db ++ new ∧
           length new + count_accepted ths = count_accepted ths'.
Proof.
  induction schedule as [|i schedule IH]; intros db ths Hkeyed Hpending; simpl.
  { split; [done|]. split; [done|]. split; [done|]. split; [done|].
    split; [done|]. exists []. by rewrite app_nil_r. }
  destruct (ths !! i) as [th|] eqn:Hi; [|by apply IH].
  pose proof (thread_step_accounts valid_ip db now th Hkeyed) as Hstep.
  destruct (thread_step valid_ip db now th) as [th' db1].
  destruct Hstep as (Hkeyed1 & Hpending1 & Hps & Hos & new1 & Hnew1 & Hlen1).
  { eapply Forall_forall in Hpending; [done|]. by eapply list_elem_of_lookup_2. }
  specialize (IH db1 (<[i := th']> ths) Hkeyed1).
  destruct (run valid_ip db1 now (<[i := th']> ths) schedule) as [ths' db'].
  destruct IH as (Hkeyed' & Hpending' & Hps' & Hos' & Hlen' & new & Hnew & Hcount).
  { by apply Forall_insert. }
  pose proof (count_accepted_insert ths i th th' Hi).
  rewrite length_insert in Hlen'.
  split; [done|]. split; [done|]. split; [congruence|]. split; [congruence|].
  split; [done|]. exists (new1 ++ new). split.
  - by rewrite Hnew, Hnew1, app_assoc.
  - rewrite length_app. lia.
Qed.

(** X14. Whatever the interleaving of the requests, every accepted request
    has added exactly one row to the table of votes and no other request
    has added or removed any: the table is the old table followed by as
    many new rows as there are accepted requests. The keys of the rows stay
    distinct, and polls and options are untouched. *)
Theorem every_accepted_request_stored_once valid_ip db now jobs schedule :
  keyed (votes db) →
  let '(ths, db') := run valid_ip db now (start <$> jobs) schedule in
  keyed (votes db') ∧ polls db' = polls db ∧ options db' = options db ∧
  ∃ new, votes db' = votes db ++ new ∧ length new = count_accepted ths.
Proof.
  intros Hkeyed.
  pose proof (run_accounts valid_ip now schedule db (start <$> jobs) Hkeyed) as Hrun.
  destruct (run valid_ip db now (start <$> jobs) schedule) as [ths db'].
  destruct Hrun as (Hkeyed' & _ & Hps & Hos & _ & new & Hnew & Hcount).
  { apply Forall_fmap, Forall_forall. by intros job _. }
  split; [done|]. split; [done|]. split; [done|].
  exists new. split; [done|].
  assert (Hzero : count_accepted (start <$> jobs) = 0).
  { clear. induction jobs as [|job jobs IH]; [done|]. csimpl. apply IH. }
  lia.
Qed.

Lemma every_accepted_request_stored_once_witness :
  let '(ths, db') :=
    run Example.ipv4 Example.two_to_one 5
      (start <$> [(Example.anonymous "10.0.0.1", 1); (Example.anonymous "10.0.0.1", 1)])
      [0; 1; 1; 0; 1; 0] in
  keyed (votes db') ∧ polls db' = polls Example.two_to_one ∧
  options db' = options Example.two_to_one ∧
  ∃ new, votes db' = votes Example.two_to_one ++ new ∧
         length new = count_accepted ths.
Proof.
  apply (every_accepted_request_stored_once Example.ipv4 Example.two_to_one 5
           [(Example.anonymous "10.0.0.1", 1); (Example.anonymous "10.0.0.1", 1)]
           [0; 1; 1; 0; 1; 0]).
  split; by apply (bool_decide_unpack _).
Defined.

(** ** The options of a created poll *)



(** The options of the poll that [createPoll] has just created, in a store
    whose options all belong to stored polls: they are the new rows. *)
Lemma created_poll_options db now owner data poll db' :
  Forall (fun o => PollOption.poll o ∈ Poll.id <$> polls db) (options db) →
  createPoll db now owner data = Ok (poll, db') →
  PollOption.text <$> poll_options db' poll
  = (fun o => strip (od_text o)) <$> pd_options data.
Proof.
  intros Hoptions Hcreate.
  destruct (createPoll_Ok_inv _ _ _ _ _ _ Hcreate) as (vd & Hvalid & Horder).
  destruct (createPoll_creates db now owner data vd Hvalid Horder)
    as (poll' & rows & Hcreate' & Hpoll & _ & Htext & _ & Hrows & _).
  rewrite Hcreate in Hcreate'. injection Hcreate' as <- ->.
  unfold poll_options. simpl. rewrite filter_app.
  rewrite filter_none, filter_all; [done| |].
  - eapply Forall_impl; [exact Hrows|]. by intros r [? _].
  - apply Forall_forall. intros o Ho Heq.
    eapply Forall_forall in Hoptions; [|exact Ho].
    apply fresh_id_gt in Hoptions. rewrite Heq, Hpoll in Hoptions. simpl in *. lia.
Qed.



(** ** The total of a result *)

(** X16. With option keys that are unique, the total that [get_results]
    reports is what [Poll.total_votes] counts: the stored votes whose
    option belongs to the poll, each once. *)
Theorem results_total_is_total_votes db now self :
  NoDup (PollOption.id <$> options db) →
  Results.total_votes (get_results db now self) = Poll_total_votes db self ∧
  Results.total_votes (get_results db now self)
  = sum_list (count_votes db <$> (PollOption.id <$> poll_options db self)).
Proof.
  intros Hnodup. split; [by apply get_results_total_votes|].
  unfold get_results. simpl. rewrite order_by_vote_count_desc_Permutation.
  by rewrite <-!list_fmap_compose.
Qed.

Lemma results_total_is_total_votes_witness :
  Results.total_votes (get_results Example.two_to_one 5 Example.poll)
  = Poll_total_votes Example.two_to_one Example.poll.
Proof.
  apply results_total_is_total_votes. by apply (bool_decide_unpack _).
Defined.

(** ** The annotations of a poll list *)

Lemma Count_joined_rows db p :
  Count (snd <$> joined_rows db p)
  = sum_list ((fun o => count_votes db (PollOption.id o)) <$> poll_options db p) ∧
  Count (fst <$> joined_rows db p)
  = sum_list (times_counted db <$> poll_options db p).
Proof.
  unfold joined_rows. destruct (poll_options db p) as [|o os] eqn:Hos; [done|].
  change (left_outer_join (o :: os)) with (Some <$> (o :: os)).
  generalize (o :: os). clear. intros os.
  induction os as [|o os [IH1 IH2]]; [done|].
  csimpl. rewrite !fmap_app. unfold Count in *.
  rewrite !omap_app, !length_app, IH1, IH2.
  unfold times_counted, count_votes, option_votes.
  assert (H1 : ∀ l : list Vote.t,
             length (omap id (snd <$> ((fun v0 => (Some o, v0)) <$> (Some <$> l))))
             = length l).
  { intros l. induction l as [|x l IHl]; [done|]. rewrite !fmap_cons. simpl. f_equal. exact IHl. }
  assert (H2 : ∀ l : list Vote.t,
             length (omap id (fst <$> ((fun v0 : option Vote.t => (Some o, v0))
                                         <$> (Some <$> l))))
             = length l).
  { intros l. induction l as [|x l IHl]; [done|]. rewrite !fmap_cons. simpl. f_equal. exact IHl. }
  destruct (filter _ (votes db)) as [|v vs]; [done|].
  change (left_outer_join (v :: vs)) with (Some <$> (v :: vs)).
  rewrite H1, H2. simpl. split; lia.
Qed.

Lemma times_counted_sum db os :
  length os ≤ sum_list (times_counted db <$> os) ∧
  (sum_list (times_counted db <$> os) = length os ↔
   Forall (fun o => count_votes db (PollOption.id o) ≤ 1) os).
Proof.
  induction os as [|o os [IHle IHeq]]; csimpl.
  { split; [done|]. split; [constructor|done]. }
  unfold times_counted at 1 3. split; [lia|]. split.
  - intros Heq. constructor; [lia|]. apply IHeq. lia.
  - intros [Ho Hos%IHeq]%Forall_cons. lia.
Qed.

(** X17. The two annotations of a row of a poll list. [total_votes] is the
    sum of the vote counts of the options of the poll, which is
    [Poll.total_votes] when option keys are unique. [option_count] is not
    the number of options: both counts read the same joined rows, so an
    option is counted once for each of its votes, and once when it has
    none. It is never below the number of options, and it is that number
    exactly when no option of the poll has two votes. *)
Theorem option_count_counts_an_option_once_per_vote db p :
  PollListRow.total_votes (annotate_counts db p)
  = sum_list ((fun o => count_votes db (PollOption.id o)) <$> poll_options db p) ∧
  (NoDup (PollOption.id <$> options db) →
   PollListRow.total_votes (annotate_counts db p) = Poll_total_votes db p) ∧
  PollListRow.option_count (annotate_counts db p)
  = sum_list (times_counted db <$> poll_options db p) ∧
  length (poll_options db p) ≤ PollListRow.option_count (annotate_counts db p) ∧
  (PollListRow.option_count (annotate_counts db p) = length (poll_options db p) ↔
   Forall (fun o => count_votes db (PollOption.id o) ≤ 1) (poll_options db p)).
Proof.
  destruct (Count_joined_rows db p) as [Htotal Hcount]. simpl.
  rewrite Htotal, Hcount.
  split; [done|]. split.
  - intros Hnodup. rewrite <-(get_results_total_votes db 0 p Hnodup).
    unfold get_results. simpl. rewrite order_by_vote_count_desc_Permutation.
    by rewrite <-list_fmap_compose.
  - split; [done|]. apply times_counted_sum.
Qed.

(** ** Ordering by a key *)

Lemma insert_desc_Permutation {A} (key : A → Z) r rows :
  insert_desc key r rows ≡ₚ r :: rows.
Proof.
  induction rows as [|x rows IH]; simpl; [done|].
  case_bool_decide; [done|]. rewrite IH. apply perm_swap.
Qed.

Lemma order_by_desc_Permutation {A} (key : A → Z) rows :
  order_by_desc key rows ≡ₚ rows.
Proof.
  induction rows as [|r rows IH]; simpl; [done|].
  by rewrite insert_desc_Permutation, IH.
Qed.

Lemma insert_desc_sorted {A} (key : A → Z) r rows :
  StronglySorted (descending key) rows →
  StronglySorted (descending key) (insert_desc key r rows).
Proof.
  induction rows as [|x rows IH]; simpl; intros Hsorted.
  { repeat constructor. }
  apply StronglySorted_inv in Hsorted as [Hrows Hx].
  case_bool_decide as Hle.
  - constructor; [by constructor|]. constructor; [done|].
    eapply Forall_impl; [exact Hx|]. unfold descending. intros; lia.
  - constructor; [by apply IH|].
    rewrite insert_desc_Permutation. constructor; [|done].
    unfold descending. lia.
Qed.

Lemma order_by_desc_sorted {A} (key : A → Z) rows :
  StronglySorted (descending key) (order_by_desc key rows).
Proof.
  induction rows as [|r rows IH]; simpl; [constructor|].
  by apply insert_desc_sorted.
Qed.

Lemma elem_of_order_by_desc {A} (key : A → Z) rows x :
  x ∈ order_by_desc key rows ↔ x ∈ rows.
Proof. by rewrite order_by_desc_Permutation. Qed.

(** The first [n] rows of a list in descending order are rows of greatest
    key: a row that is left out is not above any of them, and none is left
    out unless [n] rows are taken. *)
Lemma take_sorted_greatest {A} (key : A → Z) (l : list A) n x :
  StronglySorted (descending key) l → x ∈ l → x ∉ take n l →
  length (take n l) = n ∧ Forall (fun r => (key x ≤ key r)%Z) (take n l).
Proof.
  intros Hsorted [j Hj]%list_elem_of_lookup_1 Hout.
  assert (Hnj : n ≤ j).
  { destruct (decide (n ≤ j)) as [|Hlt]; [done|]. exfalso. apply Hout.
    apply list_elem_of_lookup. exists j. apply lookup_take_Some. split; [done|lia]. }
  pose proof (lookup_lt_Some _ _ _ Hj) as Hlen.
  split; [rewrite length_take; lia|].
  apply Forall_forall. intros r [i Hi]%list_elem_of_lookup_1.
  apply lookup_take_Some in Hi as [Hi Hin].
  apply (StronglySorted_lookup _ _ i j r x Hsorted); [lia|done|done].
Qed.

(** ** Statistics *)

(** X18. The list [top_polls] of the statistics holds at most 5 rows, each
    the row of a stored poll with its number of votes, which is positive;
    the rows come in descending order of that number; and they are the most
    voted polls: a poll with votes that is not listed has no more votes
    than any listed poll, and is left out only when 5 polls are listed. *)
Theorem top_polls_are_the_most_voted day db now :
  length (Stats.top_polls (vote_statistics day db now)) ≤ 5 ∧
  Forall (fun r => 0 < TopPoll.vote_count r ∧
                   ∃ p, p ∈ polls db ∧ r = annotate_vote_count db p ∧
                        TopPoll.vote_count r
                        = sum_list ((fun o => count_votes db (PollOption.id o))
                                      <$> poll_options db p))
         (Stats.top_polls (vote_statistics day db now)) ∧
  (∀ i j a b, i < j →
     Stats.top_polls (vote_statistics day db now) !! i = Some a →
     Stats.top_polls (vote_statistics day db now) !! j = Some b →
     TopPoll.vote_count b ≤ TopPoll.vote_count a) ∧
  (∀ p, p ∈ polls db → 0 < TopPoll.vote_count (annotate_vote_count db p) →
     annotate_vote_count db p ∉ Stats.top_polls (vote_statistics day db now) →
     length (Stats.top_polls (vote_statistics day db now)) = 5 ∧
     Forall (fun r => TopPoll.vote_count (annotate_vote_count db p)
                      ≤ TopPoll.vote_count r)
            (Stats.top_polls (vote_statistics day db now))).
Proof.
  simpl. fold by_votes.
  set (rows := filter _ (annotate_vote_count db <$> polls db)).
  pose proof (order_by_desc_sorted by_votes rows) as Hsorted.
  split; [rewrite length_take; lia|]. split; [|split].
  - apply Forall_forall. intros r Hr.
    assert (Hin : r ∈ order_by_desc by_votes rows).
    { rewrite <-(take_drop 5). apply elem_of_app. by left. }
    apply elem_of_order_by_desc, list_elem_of_filter in Hin as [Hpos Hin].
    split; [done|].
    apply list_elem_of_fmap in Hin as (p & -> & Hp).
    exists p. split; [done|]. split; [done|]. apply Count_joined_rows.
  - intros i j a b Hij [Ha _]%lookup_take_Some [Hb _]%lookup_take_Some.
    pose proof (StronglySorted_lookup _ _ i j a b Hsorted Hij Ha Hb) as Hle.
    unfold descending, by_votes in Hle. lia.
  - intros p Hp Hpos Hout.
    destruct (take_sorted_greatest by_votes (order_by_desc by_votes rows) 5
                (annotate_vote_count db p) Hsorted) as [Hlen Hall]; [|done|].
    { apply elem_of_order_by_desc, list_elem_of_filter. split; [done|].
      by apply list_elem_of_fmap_2. }
    split; [done|]. eapply Forall_impl; [exact Hall|].
    intros r Hr. unfold by_votes in Hr. simpl in Hr. lia.
Qed.

Lemma filter_split_length {A} (P Q R : A → Prop)
    `{!∀ x, Decision (P x)} `{!∀ x, Decision (Q x)} `{!∀ x, Decision (R x)}
    (l : list A) :
  (∀ x, R x ↔ P x ∨ Q x) → (∀ x, P x → Q x → False) →
  length (filter P l) + length (filter Q l) = length (filter R l).
Proof.
  intros HR Hex. induction l as [|x l IH]; [done|].
  rewrite !filter_cons.
  destruct (decide (P x)) as [HP|HP], (decide (Q x)) as [HQ|HQ],
           (decide (R x)) as [Hr|Hr]; simpl; try lia.
  - destruct (Hex x HP HQ).
  - destruct (Hex x HP HQ).
  - destruct Hr. apply HR. by left.
  - destruct Hr. apply HR. by right.
  - apply HR in Hr as [|]; done.
Qed.

Lemma validate_option_open db now o p :
  get_poll db (PollOption.poll o) = Some p →
  validate_option db now o = Ok o ↔ open_for_voting now p = true.
Proof.
  intros Hp. unfold validate_option, open_for_voting. rewrite Hp. simpl.
  destruct (Poll.is_active p), (Poll.is_expired now p); simpl; split; done.
Qed.

(** X19. The number [active_polls] of the statistics counts the active
    polls whose expiry lies strictly in the future. A poll without expiry
    is not counted, although [validate_option] lets votes for it pass: the
    polls that are open for voting are the counted ones together with the
    open polls that have no expiry or expire at this very moment. The
    numbers [active_polls] and [recent_votes] are never above [total_polls]
    and [total_votes]. *)
Theorem active_polls_counts_only_polls_with_a_later_expiry day db now :
  Stats.active_polls (vote_statistics day db now)
  + length (filter (fun p => open_for_voting now p = true ∧
                             (Poll.expires_at p = None ∨ Poll.expires_at p = Some now))
                   (polls db))
  = length (filter (fun p => open_for_voting now p = true) (polls db)) ∧
  (∀ o p, get_poll db (PollOption.poll o) = Some p →
          (validate_option db now o = Ok o ↔ open_for_voting now p = true)) ∧
  Stats.active_polls (vote_statistics day db now)
  ≤ Stats.total_polls (vote_statistics day db now) ∧
  Stats.recent_votes (vote_statistics day db now)
  ≤ Stats.total_votes (vote_statistics day db now).
Proof.
  simpl. split; [|split; [|split]].
  - apply filter_split_length; intros p;
      unfold open_for_voting, expires_at__gt, Poll.is_expired;
      destruct (Poll.is_active p), (Poll.expires_at p) as [e|]; simpl;
      rewrite ?negb_true_iff, ?bool_decide_eq_true, ?bool_decide_eq_false.
    + split.
      * intros He. destruct (decide (e = now)) as [->|]; [|left; lia].
        right. split; [done|]. by right.
      * intros [?|[? _]]; [lia|done].
    + split; [|done]. intros _. right. split; [done|]. by left.
    + split; [done|]. by intros [?|[? _]].
    + split; [done|]. by intros [?|[? _]].
    + intros Hlt [Hge [?|[= ->]]]; [done|lia].
    + done.
    + done.
    + done.
  - intros o p. apply validate_option_open.
  - apply length_filter.
  - apply length_filter.
Qed.

(** ** The list of polls *)

Lemma elem_of_get_queryset db now search status r :
  r ∈ get_queryset db now search status ↔
  ∃ p, r = annotate_counts db p ∧ p ∈ polls db ∧ Poll.is_active p = true ∧
       search_matches search p = true ∧ status_matches now status p = true.
Proof.
  unfold get_queryset. rewrite list_elem_of_fmap.
  apply exist_proper. intros p. apply and_iff_compat_l.
  rewrite elem_of_order_by_desc.
  assert (Hsearch : ∀ l : list Poll.t,
    p ∈ match search with
        | Some s =>
            if bool_decide (s = "") then l
            else filter (fun p => icontains (Poll.title p) s
                                  || icontains (Poll.description p) s = true) l
        | None => l
        end ↔ p ∈ l ∧ search_matches search p = true).
  { intros l. unfold search_matches. destruct search as [s|]; [|intuition].
    case_bool_decide; simpl; [intuition|].
    rewrite list_elem_of_filter. intuition. }
  unfold status_matches.
  repeat case_bool_decide;
    rewrite ?list_elem_of_filter, Hsearch, list_elem_of_filter; intuition.
Qed.

(** X20. The list of polls. Every row is a stored poll that is active,
    whatever the parameters. With [status=expired] the list holds the rows
    of the unfiltered list whose poll has expired; with [status=active] it
    holds those whose poll has not expired, except the polls that expire at
    this very moment, which neither list holds; any other value of
    [status] filters nothing. The rows come newest first. *)
Theorem get_queryset_lists_active_polls_by_status db now search :
  (∀ status r, r ∈ get_queryset db now search status →
     PollListRow.poll r ∈ polls db ∧ Poll.is_active (PollListRow.poll r) = true ∧
     r = annotate_counts db (PollListRow.poll r)) ∧
  (∀ r, r ∈ get_queryset db now search (Some "expired") ↔
        r ∈ get_queryset db now search None ∧
        Poll.is_expired now (PollListRow.poll r) = true) ∧
  (∀ r, r ∈ get_queryset db now search (Some "active") ↔
        r ∈ get_queryset db now search None ∧
        Poll.is_expired now (PollListRow.poll r) = false ∧
        Poll.expires_at (PollListRow.poll r) ≠ Some now) ∧
  (∀ status, status ≠ Some "expired" → status ≠ Some "active" →
     get_queryset db now search status = get_queryset db now search None) ∧
  (∀ status i j a b, i < j →
     get_queryset db now search status !! i = Some a →
     get_queryset db now search status !! j = Some b →
     (Poll.created_at (PollListRow.poll b) ≤ Poll.created_at (PollListRow.poll a))%Z).
Proof.
  split; [|split; [|split; [|split]]].
  - intros status r (p & -> & Hp & Hactive & _)%elem_of_get_queryset. done.
  - intros r. rewrite !elem_of_get_queryset. split.
    + intros (p & -> & Hp & Hactive & Hsearch & Hstatus). split; [by exists p|].
      simpl. unfold status_matches, expires_at__lt, Poll.is_expired in *.
      simpl in Hstatus. destruct (Poll.expires_at p); [|done].
      apply bool_decide_eq_true in Hstatus. apply bool_decide_eq_true. lia.
    + intros [(p & -> & Hp & Hactive & Hsearch & _) Hexpired]. exists p.
      split; [done|]. split; [done|]. split; [done|]. split; [done|].
      simpl in *. unfold status_matches, expires_at__lt, Poll.is_expired in *.
      simpl. destruct (Poll.expires_at p); [|done].
      apply bool_decide_eq_true in Hexpired. apply bool_decide_eq_true. lia.
  - intros r. rewrite !elem_of_get_queryset. split.
    + intros (p & -> & Hp & Hactive & Hsearch & Hstatus). split; [by exists p|].
      simpl. unfold status_matches, expires_at__isnull, expires_at__gt,
               Poll.is_expired in *.
      simpl in Hstatus. destruct (Poll.expires_at p) as [e|]; [|done].
      apply bool_decide_eq_true in Hstatus.
      split; [apply bool_decide_eq_false; lia|]. intros [= ->]. lia.
    + intros [(p & -> & Hp & Hactive & Hsearch & _) [Hexpired Hnow]]. exists p.
      split; [done|]. split; [done|]. split; [done|]. split; [done|].
      simpl in *. unfold status_matches, expires_at__isnull, expires_at__gt,
                    Poll.is_expired in *.
      simpl. destruct (Poll.expires_at p) as [e|]; [|done].
      apply bool_decide_eq_false in Hexpired. apply bool_decide_eq_true.
      destruct (decide (e = now)) as [->|]; [done|lia].
  - intros status Hexpired Hactive. unfold get_queryset.
    rewrite !bool_decide_eq_false_2; done.
  - intros status i j a b Hij Ha Hb. unfold get_queryset in Ha, Hb.
    rewrite list_lookup_fmap in Ha, Hb.
    destruct (order_by_desc _ _ !! i) as [p|] eqn:Hp; [|done].
    destruct (order_by_desc _ _ !! j) as [q|] eqn:Hq; [|done].
    simplify_eq/=.
    exact (StronglySorted_lookup _ _ i j p q (order_by_desc_sorted _ _) Hij Hp Hq).
Qed.

(** ** Switching a poll on and off *)

Lemma find_update_other (rows : list Poll.t) (self : Poll.t) pid :
  pid ≠ Poll.id self →
  List.find (fun q => bool_decide (Poll.id q = pid))
    ((fun q => if bool_decide (Poll.id q = Poll.id self) then self else q) <$> rows)
  = List.find (fun q => bool_decide (Poll.id q = pid)) rows.
Proof.
  intros Hne. induction rows as [|q rows IH]; [done|]. csimpl.
  destruct (decide (Poll.id q = Poll.id self)) as [Hq|Hq].
  - rewrite (bool_decide_eq_true_2 _ Hq).
    rewrite !bool_decide_eq_false_2 by congruence. exact IH.
  - rewrite (bool_decide_eq_false_2 _ Hq). by rewrite IH.
Qed.

Lemma find_update_same (rows : list Poll.t) (self p : Poll.t) :
  List.find (fun q => bool_decide (Poll.id q = Poll.id self)) rows = Some p →
  List.find (fun q => bool_decide (Poll.id q = Poll.id self))
    ((fun q => if bool_decide (Poll.id q = Poll.id self) then self else q) <$> rows)
  = Some self.
Proof.
  induction rows as [|q rows IH]; [done|]. csimpl.
  destruct (decide (Poll.id q = Poll.id self)) as [Hq|Hq].
  - intros _. rewrite (bool_decide_eq_true_2 _ Hq). by rewrite bool_decide_eq_true_2.
  - rewrite !(bool_decide_eq_false_2 _ Hq). exact IH.
Qed.

Lemma find_exists (rows : list Poll.t) pid p :
  List.find (fun q => bool_decide (Poll.id q = pid)) rows = Some p →
  exists_ (filter (fun q => Poll.id q = pid) rows) = true.
Proof.
  intros [Hin Hid%bool_decide_eq_true]%find_some.
  apply list_elem_of_In in Hin.
  assert (Hp : p ∈ filter (fun q => Poll.id q = pid) rows)
    by (by apply list_elem_of_filter).
  by destruct (filter _ rows); [apply elem_of_nil in Hp|].
Qed.

(** Saving a poll that is stored: the row under its key is the saved one,
    every other key names the row it named, and the keys of the table are
    the same, in the same order. *)
Lemma Poll_save_stored db (self p : Poll.t) :
  get_poll db (Poll.id self) = Some p →
  get_poll (with_polls (Poll_save (polls db) self) db) (Poll.id self) = Some self ∧
  (∀ k, k ≠ Poll.id self →
        get_poll (with_polls (Poll_save (polls db) self) db) k = get_poll db k) ∧
  Poll.id <$> Poll_save (polls db) self = Poll.id <$> polls db.
Proof.
  unfold get_poll, Poll_save. intros Hp. rewrite (find_exists _ _ _ Hp). simpl.
  split; [by eapply find_update_same|]. split.
  - intros k Hk. by apply find_update_other.
  - rewrite <-list_fmap_compose. apply list_fmap_ext. intros i q _. simpl.
    by case_bool_decide.
Qed.

Lemma toggle_poll_status_owner db pk is_active poll :
  get_poll db pk = Some poll → is_active ≠ PyNone →
  toggle_poll_status db (Poll.created_by poll) pk is_active
  = (Response200 (set_is_active (bool_ is_active) poll),
     with_polls (Poll_save (polls db) (set_is_active (bool_ is_active) poll)) db).
Proof.
  intros Hpoll Hnone. unfold toggle_poll_status. rewrite Hpoll.
  rewrite bool_decide_eq_false_2 by (by intros []).
  by destruct is_active.
Qed.




(** X22. Once its owner has switched a poll off, by any value that Python
    takes for false, every vote for an option of the poll is refused with
    the error of an inactive poll, whoever sends it, and nothing is stored;
    the missing key [is_active], or the value [None], switches nothing. *)
Theorem switched_off_poll_refuses_votes valid_ip db now pk is_active poll :
  get_poll db pk = Some poll →
  (is_active = PyNone →
   toggle_poll_status db (Poll.created_by poll) pk is_active
   = (Response200 poll, db)) ∧
  (is_active ≠ PyNone → bool_ is_active = false →
   ∀ request data o,
     get_option db data = Some o → PollOption.poll o = pk →
     castVote valid_ip
       (snd (toggle_poll_status db (Poll.created_by poll) pk is_active))
       now request data
     = Raise (SerializerValidationError "This poll is not active.")).
Proof.
  intros Hpoll. pose proof (get_poll_id _ _ _ Hpoll) as Hid. split.
  - intros ->. unfold toggle_poll_status. rewrite Hpoll.
    by rewrite bool_decide_eq_false_2 by (by intros []).
  - intros Hnone Hfalse request data o Ho Hpk.
    rewrite (toggle_poll_status_owner _ _ _ _ Hpoll Hnone). simpl.
    destruct (Poll_save_stored db (set_is_active (bool_ is_active) poll) poll)
      as (Hget & _).
    { simpl. by rewrite Hid. }
    simpl in Hget. rewrite Hid in Hget.
    unfold castVote, VoteSerializer_is_valid, option_to_internal_value.
    change (get_option (with_polls ?ps db) data) with (get_option db data).
    rewrite Ho. simpl. unfold validate_option. rewrite Hpk, Hget. simpl.
    by rewrite Hfalse.
Qed.

Lemma switched_off_poll_refuses_votes_witness :
  castVote Example.ipv4
    (snd (toggle_poll_status Example.two_to_one 1 1 (PyInt 0)))
    5 (Example.anonymous "10.0.0.9") 2
  = Raise (SerializerValidationError "This poll is not active.").
Proof.
  destruct (switched_off_poll_refuses_votes Example.ipv4 Example.two_to_one 5 1
              (PyInt 0) Example.poll eq_refl) as [_ Hoff].
  apply (Hoff ltac:(done) eq_refl (Example.anonymous "10.0.0.9") 2 Example.option_B);
    reflexivity.
Defined.

(** ** Deleting a poll *)

Lemma find_filter_none {A} (f : A → bool) (P : A → Prop)
    `{!∀ x, Decision (P x)} (l : list A) :
  (∀ x, f x = true → ¬ P x) → List.find f (filter P l) = None.
Proof.
  intros Hf. induction l as [|x l IH]; [done|]. rewrite filter_cons.
  destruct (decide (P x)) as [HP|HP]; [|done]. simpl.
  destruct (f x) eqn:Hx; [by destruct (Hf x Hx)|done].
Qed.

Lemma find_filter_same {A} (f : A → bool) (P : A → Prop)
    `{!∀ x, Decision (P x)} (l : list A) :
  (∀ x, f x = true → P x) → List.find f (filter P l) = List.find f l.
Proof.
  intros Hf. induction l as [|x l IH]; [done|]. rewrite filter_cons. simpl.
  destruct (decide (P x)) as [HP|HP]; simpl.
  - by rewrite IH.
  - destruct (f x) eqn:Hx; [by destruct (HP (Hf x Hx))|done].
Qed.

Lemma NoDup_fmap_filter {A B} (f : A → B) (P : A → Prop)
    `{!∀ x, Decision (P x)} (l : list A) :
  NoDup (f <$> l) → NoDup (f <$> filter P l).
Proof.
  intros Hnodup. eapply sublist_NoDup; [exact Hnodup|].
  apply fmap_sublist, sublist_filter.
Qed.

Lemma filter_complement_length {A} (P Q : A → Prop)
    `{!∀ x, Decision (P x)} `{!∀ x, Decision (Q x)} (l : list A) :
  (∀ x, x ∈ l → Q x ↔ ¬ P x) →
  length (filter P l) + length (filter Q l) = length l.
Proof.
  induction l as [|x l IH]; intros HQ; [done|].
  rewrite !filter_cons.
  pose proof (HQ x ltac:(left)) as Hx.
  assert (IH' : length (filter P l) + length (filter Q l) = length l).
  { apply IH. intros y Hy. apply HQ. by right. }
  destruct (decide (P x)), (decide (Q x)); simpl; try lia; tauto.
Qed.

(** With option keys that are unique, the votes whose option is one of
    the options of the poll are the votes of the poll. *)
Lemma vote_of_poll_options db (p : Poll.t) v :
  NoDup (PollOption.id <$> options db) →
  Vote.option v ∈ PollOption.id <$> poll_options db p ↔
  vote_poll db v = Some (Poll.id p).
Proof.
  intros Hnodup. unfold vote_poll, poll_options. split.
  - intros (o & Hid & [Hpoll Ho]%list_elem_of_filter)%list_elem_of_fmap.
    destruct (get_option db (Vote.option v)) as [o'|] eqn:Hget.
    + pose proof (get_option_id _ _ _ Hget) as Hid'.
      apply find_some in Hget as [Hin%list_elem_of_In _].
      assert (o' = o) as ->; [|by rewrite <-Hpoll].
      eapply NoDup_fmap_eq; [exact Hnodup|done|done|congruence].
    + exfalso. unfold get_option in Hget.
      eapply find_none in Hget; [|by apply list_elem_of_In].
      simpl in Hget. apply bool_decide_eq_false in Hget. congruence.
  - destruct (get_option db (Vote.option v)) as [o|] eqn:Hget; [|done].
    intros [= Hpoll]. pose proof (get_option_id _ _ _ Hget) as Hid.
    apply find_some in Hget as [Hin%list_elem_of_In _].
    apply list_elem_of_fmap. exists o. split; [done|].
    by apply list_elem_of_filter.
Qed.

Lemma Poll_delete_polls db (self : Poll.t) :
  get_poll (Poll_delete db self) (Poll.id self) = None ∧
  ∀ k, k ≠ Poll.id self → get_poll (Poll_delete db self) k = get_poll db k.
Proof.
  unfold get_poll, Poll_delete. simpl. split.
  - apply find_filter_none. intros q Hq%bool_decide_eq_true. by intros [].
  - intros k Hk. apply find_filter_same. intros q Hq%bool_decide_eq_true.
    congruence.
Qed.

Lemma Poll_delete_consistent db (self : Poll.t) :
  consistent db → consistent (Poll_delete db self).
Proof.
  intros (Hpolls & Hoptions & Hrefs & Hvotes). unfold Poll_delete.
  split; [by apply NoDup_fmap_filter|]. split; [by apply NoDup_fmap_filter|].
  simpl. split.
  - apply Forall_forall. intros o [Hne Ho]%list_elem_of_filter.
    eapply Forall_forall in Hrefs; [|exact Ho].
    apply list_elem_of_fmap in Hrefs as (q & Hq & Hin).
    apply list_elem_of_fmap. exists q. split; [done|].
    apply list_elem_of_filter. split; [congruence|done].
  - apply Forall_forall. intros v [Hout Hv]%list_elem_of_filter.
    eapply Forall_forall in Hvotes; [|exact Hv].
    apply list_elem_of_fmap in Hvotes as (o & Hid & Ho).
    apply list_elem_of_fmap. exists o. split; [done|].
    apply list_elem_of_filter. split; [|done]. intros Hpoll. apply Hout.
    apply list_elem_of_fmap. exists o. split; [done|].
    by apply list_elem_of_filter.
Qed.

(** The results of another poll do not change. *)
Lemma Poll_delete_other_results db now (self q : Poll.t) :
  NoDup (PollOption.id <$> options db) → Poll.id q ≠ Poll.id self →
  get_results (Poll_delete db self) now q = get_results db now q.
Proof.
  intros Hnodup Hne.
  assert (Hoptions : poll_options (Poll_delete db self) q = poll_options db q).
  { unfold poll_options, Poll_delete. simpl. apply list_filter_filter_l.
    intros o Ho. congruence. }
  assert (Hrows : annotate_values (Poll_delete db self) <$> poll_options db q
                  = annotate_values db <$> poll_options db q).
  { apply list_fmap_ext. intros i o Ho%list_elem_of_lookup_2.
    unfold annotate_values. f_equal. unfold count_votes, Poll_delete. simpl.
    f_equal. apply list_filter_filter_l. intros v Hv.
    intros (o' & Hid & [Hpoll' Ho']%list_elem_of_filter)%list_elem_of_fmap.
    apply list_elem_of_filter in Ho as [Hpoll Ho].
    assert (o' = o) as ->; [|congruence].
    eapply NoDup_fmap_eq; [exact Hnodup|done|done|congruence]. }
  unfold get_results. by rewrite Hoptions, Hrows.
Qed.

(** X23. [PollDetailView.destroy] deletes a poll for its owner only, and
    with it what hangs on it. A request for a key that names no poll, or by
    a user who is not the owner, changes nothing. For the owner, the poll
    can no longer be looked up and has no results; every other poll is
    still there. In a store that is consistent, the store stays consistent
    (no option is left without its poll and no vote without its option),
    the votes that go are exactly the votes of the poll, the results of
    every other poll are the same as before, and a vote for an option of
    the deleted poll is refused because the option does not exist. *)
Theorem destroy_deletes_the_poll_with_its_options_and_votes
    valid_ip db now user pk :
  (get_poll db pk = None → destroy db user pk = (Http404, db)) ∧
  (∀ poll, get_poll db pk = Some poll → Poll.created_by poll ≠ user →
   destroy db user pk = (Response403 "You can only delete your own polls.", db)) ∧
  (∀ poll, get_poll db pk = Some poll → Poll.created_by poll = user →
   ∃ db',
     destroy db user pk = (Response204, db') ∧
     get_poll db' pk = None ∧ getResults db' now pk = None ∧
     (∀ k, k ≠ pk → get_poll db' k = get_poll db k) ∧
     (consistent db →
      consistent db' ∧
      votes db' = filter (fun v => vote_poll db v ≠ Some pk) (votes db) ∧
      length (votes db') + Poll_total_votes db poll = length (votes db) ∧
      (∀ q, Poll.id q ≠ pk → get_results db' now q = get_results db now q) ∧
      (∀ request data o,
         get_option db data = Some o → PollOption.poll o = pk →
         castVote valid_ip db' now request data
         = Raise (SerializerValidationError does_not_exist)))).
Proof.
  split; [|split].
  - intros Hnone. unfold destroy. by rewrite Hnone.
  - intros poll Hpoll Howner. unfold destroy. rewrite Hpoll.
    by rewrite bool_decide_eq_true_2.
  - intros poll Hpoll <-. pose proof (get_poll_id _ _ _ Hpoll) as Hid.
    exists (Poll_delete db poll). split.
    { unfold destroy. rewrite Hpoll. by rewrite bool_decide_eq_false_2 by (by intros []). }
    destruct (Poll_delete_polls db poll) as [Hgone Hothers].
    rewrite Hid in Hgone, Hothers.
    split; [done|]. split; [unfold getResults; by rewrite Hgone|].
    split; [done|].
    intros Hconsistent. pose proof Hconsistent as (_ & Hnodup & _ & _).
    split; [by apply Poll_delete_consistent|]. split; [|split; [|split]].
    + unfold Poll_delete. simpl. apply list_filter_iff. intros v.
      by rewrite vote_of_poll_options, Hid.
    + unfold Poll_total_votes, votes_of_poll, Poll_delete. simpl.
      apply filter_complement_length. intros v _.
      rewrite <-vote_of_poll_options by done. split; [by intros ? []|].
      intros Hnot. by destruct (decide (Vote.option v ∈ PollOption.id <$> poll_options db poll)).
    + intros q Hq. apply Poll_delete_other_results; [done|congruence].
    + intros request data o Ho Hpk.
      unfold castVote, VoteSerializer_is_valid, option_to_internal_value.
      assert (Hget : get_option (Poll_delete db poll) data = None); [|by rewrite Hget].
      unfold get_option, Poll_delete. simpl.
      pose proof (get_option_id _ _ _ Ho) as Hoid.
      apply find_some in Ho as [Hin%list_elem_of_In _].
      destruct (List.find _ (filter _ (options db))) as [o'|] eqn:Hfind; [|done].
      exfalso. apply find_some in Hfind as [Hin' Ho'%bool_decide_eq_true].
      apply list_elem_of_In, list_elem_of_filter in Hin' as [Hne Hin'].
      assert (o' = o) as ->; [|congruence].
      eapply NoDup_fmap_eq; [exact Hnodup|done|done|congruence].
Qed.

Lemma destroy_deletes_the_poll_with_its_options_and_votes_witness :
  ∃ db',
    destroy Example.two_to_one 1 1 = (Response204, db') ∧
    getResults db' 5 1 = None ∧ votes db' = [].
Proof.
  destruct (destroy_deletes_the_poll_with_its_options_and_votes Example.ipv4
              Example.two_to_one 5 1 1) as (_ & _ & Howner).
  destruct (Howner Example.poll eq_refl eq_refl)
    as (db' & Hdestroy & _ & Hresults & _ & Hconsistent).
  exists db'. split; [exact Hdestroy|]. split; [exact Hresults|].
  destruct Hconsistent as (_ & _ & Hlength & _).
  { split; [|split; [|split]]; by apply (bool_decide_unpack _). }
  change (Poll_total_votes Example.two_to_one Example.poll) with 3 in Hlength.
  change (length (votes Example.two_to_one)) with 3 in Hlength.
  destruct (votes db'); [done|simpl in Hlength; lia].
Defined.

(** ** A created poll in the lists *)

Lemma created_poll_rows db now owner data poll db' :
  Forall (fun o => PollOption.poll o ∈ Poll.id <$> polls db) (options db) →
  Forall (fun v => Vote.option v ∈ PollOption.id <$> options db) (votes db) →
  createPoll db now owner data = Ok (poll, db') →
  poll ∈ polls db' ∧ Poll.created_by poll = owner ∧
  Poll.is_active poll = pd_is_active data ∧
  length (poll_options db' poll) = length (pd_options data) ∧
  Forall (fun o => count_votes db' (PollOption.id o) = 0) (poll_options db' poll).
Proof.
  intros Hoptions Hvotes Hcreate.
  pose proof (created_poll_options _ _ _ _ _ _ Hoptions Hcreate) as Htexts.
  destruct (createPoll_Ok_inv _ _ _ _ _ _ Hcreate) as (vd & Hvalid & Horder).
  destruct (createPoll_creates db now owner data vd Hvalid Horder)
    as (poll' & rows & Hcreate' & Hpoll & _ & _ & _ & _ & Hnew & _).
  rewrite Hcreate in Hcreate'. injection Hcreate' as <- Hdb.
  split; [rewrite Hdb; apply elem_of_app; right; left|].
  split; [by rewrite Hpoll|]. split; [by rewrite Hpoll|]. split.
  { by rewrite <-(length_fmap PollOption.text), Htexts, length_fmap. }
  apply Forall_forall. intros o [Ho Hin]%list_elem_of_filter.
  unfold count_votes. rewrite filter_none; [done|].
  rewrite Hdb in Hin |- *. simpl in *.
  apply Forall_forall. intros v Hv Hid.
  eapply Forall_forall in Hvotes; [|exact Hv].
  apply elem_of_app in Hin as [Hin|Hin].
  - eapply Forall_forall in Hoptions; [|exact Hin].
    apply fresh_id_gt in Hoptions. rewrite Ho, Hpoll in Hoptions. simpl in *. lia.
  - pose proof (Hnew o _ Hin Hvotes). lia.
Qed.

Lemma sum_list_zero {A} (f : A → nat) (l : list A) :
  Forall (fun x => f x = 0) l → sum_list (f <$> l) = 0.
Proof. induction 1 as [|x l Hx _ IH]; csimpl; [done|]. by rewrite Hx, IH. Qed.

(** X24. A poll that has just been created, in a consistent store, is in
    the list of the polls of its owner, and in the public list when it was
    created active, with no votes and with an option count that is the
    number of options of the request. *)
Theorem created_poll_is_listed db now owner data poll db' :
  consistent db →
  createPoll db now owner data = Ok (poll, db') →
  annotate_counts db' poll = PollListRow.mk poll 0 (length (pd_options data)) ∧
  annotate_counts db' poll ∈ user_polls db' owner ∧
  (pd_is_active data = true →
   annotate_counts db' poll ∈ get_queryset db' now None None).
Proof.
  intros (_ & _ & Hoptions & Hvotes) Hcreate.
  destruct (created_poll_rows _ _ _ _ _ _ Hoptions Hvotes Hcreate)
    as (Hin & Howner & Hactive & Hlen & Hzero).
  split; [|split].
  - unfold annotate_counts. destruct (Count_joined_rows db' poll) as [-> ->].
    f_equal.
    + by apply sum_list_zero.
    + rewrite <-Hlen. apply times_counted_sum.
      eapply Forall_impl; [exact Hzero|]. intros o Ho. simpl in Ho. lia.
  - unfold user_polls. apply list_elem_of_fmap_2, elem_of_order_by_desc.
    by apply list_elem_of_filter.
  - intros Hdata. apply elem_of_get_queryset. exists poll.
    split; [done|]. split; [done|]. split; [congruence|]. done.
Qed.

Lemma created_poll_is_listed_witness :
  annotate_counts
    (mkDB (polls Example.two_to_one
           ++ [Poll.mk 2 "Test Poll" "Test Description" 3 9 None true false])
          (options Example.two_to_one
           ++ [PollOption.mk 3 2 "Option 1" 9 1; PollOption.mk 4 2 "Option 2" 9 2])
          (votes Example.two_to_one))
    (Poll.mk 2 "Test Poll" "Test Description" 3 9 None true false)
  = PollListRow.mk (Poll.mk 2 "Test Poll" "Test Description" 3 9 None true false) 0 2.
Proof.
  apply (created_poll_is_listed Example.two_to_one 9 3 Example.create_without_order).
  - split; [|split; [|split]]; by apply (bool_decide_unpack _).
  - reflexivity.
Defined.
